(** * The WAL append block of tempodb ([tempodb/wal/append_block.go])

    A shallow embedding of [AppendBlock]: its filename scheme
    ([fullFilename], [parseFilename]), its constructors ([newAppendBlock],
    [newAppendBlockFromFile]) and its methods ([Write], [Find],
    [GetIterator], [Clear], [file]).

    Go strings are byte sequences and are modelled by [string] (a list of
    8-bit [ascii]); [[]byte] by [list byte]; [uint64]/[uint32] by [Z] with
    the wrap-around written out; a Go [error] by [option error] ([None] is
    [nil]); a nilable pointer or interface by [option].  The operating
    system, the uuid library and the packages [backend], [encoding] and
    [common] are collaborators of this file: they are interfaces (type
    classes) here, with a small reference implementation in [Module Sample]
    that the examples run on. *)

From Stdlib Require Import List String Ascii ZArith Lia Bool.
From Stdlib.Strings Require Import Byte.
From Stdlib Require Import Permutation Sorted.
Import ListNotations.

Local Open Scope string_scope.
Local Open Scope Z_scope.

(** ** Errors and results *)

(** A non-nil Go [error].  [io_EOF] is the sentinel [io.EOF], compared with
    [==] in the source; [Errorf] is an error made by [fmt.Errorf] without
    [%w], [Wrapf] one that wraps a cause with [%w]. *)
Inductive error : Type :=
| io_EOF
| Errorf (msg : string)
| Wrapf (msg : string) (cause : error).

Fixpoint error_eqb (e1 e2 : error) : bool :=
  match e1, e2 with
  | io_EOF, io_EOF => true
  | Errorf m1, Errorf m2 => String.eqb m1 m2
  | Wrapf m1 c1, Wrapf m2 c2 => String.eqb m1 m2 && error_eqb c1 c2
  | _, _ => false
  end.

(** [err == io.EOF] on a possibly nil error. *)
Definition is_EOF (err : option error) : bool :=
  match err with
  | Some io_EOF => true
  | _ => false
  end.

(** A call that returns [(value, error)] with the value meaningful only
    when the error is nil. *)
Inductive result (A : Type) : Type :=
| Ok (a : A)
| Fail (e : error).
Arguments Ok {A} a.
Arguments Fail {A} e.

(** A method call on the [appender] field panics when the field is a nil
    interface; every other path returns. *)
Inductive exec (A : Type) : Type :=
| Returns (a : A)
| Panics.
Arguments Returns {A} a.
Arguments Panics {A}.

(** ** Strings *)

Definition colon : ascii := ":"%char.

(** [strings.ContainsRune(s, r)] for a rune below [utf8.RuneSelf], where
    [IndexRune] is [IndexByte]. *)
Fixpoint strings_ContainsRune (s : string) (r : ascii) : bool :=
  match s with
  | EmptyString => false
  | String c s' => Ascii.eqb c r || strings_ContainsRune s' r
  end.

(** [strings.Split(s, sep)] for a one-byte separator: all the segments,
    one more than the occurrences of [sep]. *)
Fixpoint strings_Split (s : string) (sep : ascii) : list string :=
  match s with
  | EmptyString => [EmptyString]
  | String c s' =>
      if Ascii.eqb c sep then EmptyString :: strings_Split s' sep
      else match strings_Split s' sep with
           | seg :: segs => String c seg :: segs
           | [] => [String c EmptyString]
           end
  end.

(** [len(s) == 0] *)
Definition is_empty (s : string) : bool :=
  match s with
  | EmptyString => true
  | _ => false
  end.

(** ** Collaborators of the filename scheme *)

(** [uuid.UUID] with [String] and [uuid.Parse], and [backend.Encoding] with
    [String] and [backend.ParseEncoding]. *)
Class Backend : Type := {
  UUID : Type;
  uuid_Nil : UUID;
  uuid_String : UUID -> string;
  uuid_Parse : string -> result UUID;
  Encoding : Type;
  EncNone : Encoding;
  Encoding_String : Encoding -> string;
  ParseEncoding : string -> result Encoding
}.

(** [common.ID] *)
Definition ID : Type := list byte.

(** [common.Record]: where one page lives in the data file.  [Start] is a
    [uint64], [Length] a [uint32]. *)
Record common_Record : Type := mkRecord {
  rec_ID : ID;
  Start : Z;
  Length : Z
}.

Definition uint64_max : Z := 2 ^ 64.

(** [bytes.Compare]: byte-wise lexicographic order. *)
Fixpoint bytes_Compare (a b : list byte) : comparison :=
  match a, b with
  | [], [] => Eq
  | [], _ :: _ => Lt
  | _ :: _, [] => Gt
  | x :: a', y :: b' =>
      match N.compare (Byte.to_N x) (Byte.to_N y) with
      | Eq => bytes_Compare a' b'
      | c => c
      end
  end.

Definition id_leb (a b : ID) : bool :=
  match bytes_Compare a b with
  | Gt => false
  | _ => true
  end.

(** [common.SortRecords].
    Modelled from the spec: the function lives in [tempodb/encoding/common];
    the spec has it as a stable sort keyed on the identifier bytes, ties
    keeping their arrival order. *)
Fixpoint insertRecord (r : common_Record) (sorted : list common_Record)
    : list common_Record :=
  match sorted with
  | [] => [r]
  | r' :: rest =>
      if id_leb (rec_ID r) (rec_ID r') then r :: r' :: rest
      else r' :: insertRecord r rest
  end.

Definition SortRecords (records : list common_Record) : list common_Record :=
  fold_right insertRecord [] records.

(** What one call of [DataReader.NextPage] returns: the page's bytes, its
    length in the file and an error. *)
Record NextPageResult : Type := mkPage {
  np_buffer : list byte;
  np_pageLen : Z;
  np_err : option error
}.

(** A [common.DataReader] over a finite file, by what it does: the results
    of its successive [NextPage] calls; once they are used up [NextPage]
    reports [io.EOF]. *)
Definition DataReader : Type := list NextPageResult.

Definition NextPage (r : DataReader) : NextPageResult * DataReader :=
  match r with
  | [] => (mkPage [] 0 (Some io_EOF), [])
  | page :: r' => (page, r')
  end.

(** What [ObjectReaderWriter.UnmarshalObjectFromReader] returns. *)
Record UnmarshalResult : Type := mkUnmarshal {
  um_id : ID;
  um_object : list byte;
  um_err : option error;
  um_reader : list byte   (* what is left unread in the [bytes.Reader] *)
}.

Section Filename.
Context {BE : Backend}.

(** [backend.BlockMeta]: the fields the block reads and writes.
    Modelled from the spec: the struct is declared in [tempodb/backend];
    the spec's data model lists tenant, block id, version, page encoding,
    data-encoding, the running object count and size and the min/max
    identifier bounds. *)
Record BlockMeta : Type := mkBlockMeta {
  Version : string;
  BlockID : UUID;
  MinID : ID;
  MaxID : ID;
  TenantID : string;
  TotalObjects : Z;
  Size : Z;
  meta_Encoding : Encoding;
  DataEncoding : string
}.

(** [backend.NewBlockMeta].  Modelled from the spec: a fresh meta carries
    the five identifying fields and empty bookkeeping. *)
Definition NewBlockMeta (tenantID : string) (blockID : UUID)
    (version : string) (e : Encoding) (dataEncoding : string) : BlockMeta :=
  {| Version := version; BlockID := blockID; MinID := []; MaxID := [];
     TenantID := tenantID; TotalObjects := 0; Size := 0;
     meta_Encoding := e; DataEncoding := dataEncoding |}.

(** The local [filename] of [fullFilename]: the name of the block's file
    inside the WAL directory. *)
Definition filename (m : BlockMeta) : string :=
  if String.eqb (Version m) "v0" then
    uuid_String (BlockID m) ++ ":" ++ TenantID m
  else if is_empty (DataEncoding m) then
    uuid_String (BlockID m) ++ ":" ++ TenantID m ++ ":" ++ Version m
      ++ ":" ++ Encoding_String (meta_Encoding m)
  else
    uuid_String (BlockID m) ++ ":" ++ TenantID m ++ ":" ++ Version m
      ++ ":" ++ Encoding_String (meta_Encoding m) ++ ":" ++ DataEncoding m.

Definition segment (splits : list string) (i : nat) : string :=
  nth i splits EmptyString.

Definition parseFilename (name : string)
    : result (UUID * string * string * Encoding * string) :=
  let splits := strings_Split name colon in
  let n := List.length splits in
  if negb (Nat.eqb n 2) && negb (Nat.eqb n 4) && negb (Nat.eqb n 5) then
    Fail (Errorf ("unable to parse " ++ name
                    ++ ". unexpected number of segments"))
  else
    let blockIDString := segment splits 0 in
    let tenantID := segment splits 1 in
    let version := if Nat.leb 4 n then segment splits 2 else "v0" in
    let encodingString :=
      if Nat.leb 4 n then segment splits 3 else Encoding_String EncNone in
    let dataEncoding := if Nat.leb 5 n then segment splits 4 else EmptyString in
    match uuid_Parse blockIDString with
    | Fail err =>
        Fail (Wrapf ("unable to parse " ++ name ++ ". error parsing uuid")
                err)
    | Ok blockID =>
        match ParseEncoding encodingString with
        | Fail err =>
            Fail (Wrapf ("unable to parse " ++ name
                           ++ ". error parsing encoding") err)
        | Ok encoding =>
            if is_empty tenantID || is_empty version then
              Fail (Errorf ("unable to parse " ++ name
                              ++ ". missing fields"))
            else Ok (blockID, tenantID, version, encoding, dataEncoding)
        end
    end.

End Filename.

(** ** The operating system *)

(** [os.OpenFile], [File.Close], [os.Remove] and [filepath.Join] over
    an abstract state of the world. *)
Class OS : Type := {
  World : Type;
  File : Type;
  os_OpenFile : string -> Z -> Z -> World -> result File * World;
  File_Close : File -> World -> option error * World;
  os_Remove : string -> World -> option error * World;
  filepath_Join : string -> string -> string
}.

Definition O_RDONLY : Z := 0.
Definition O_WRONLY : Z := 1.
Definition O_CREATE : Z := 64.
Definition O_TRUNC : Z := 512.
Definition O_APPEND : Z := 1024.
(** The permission bits [0644]. *)
Definition perm_0644 : Z := 420.

(** ** Package [encoding] *)

(** [encoding.VersionedEncoding] with its readers and writers,
    [encoding.Appender] with its two constructors, the iterators and the
    paged finder, and [BlockMeta.ObjectAdded]. *)
Class Codec {BE : Backend} {O : OS} : Type := {
  VersionedEncoding : Type;
  FromVersion : string -> result VersionedEncoding;
  encoding_Version : VersionedEncoding -> string;
  DataWriter : Type;
  NewDataWriter : VersionedEncoding -> File -> Encoding -> result DataWriter;
  NewDataReader :
    VersionedEncoding -> option File -> Encoding -> World -> result DataReader;
  UnmarshalObjectFromReader : VersionedEncoding -> list byte -> UnmarshalResult;
  Appender : Type;
  NewAppender : DataWriter -> Appender;
  NewRecordAppender : list common_Record -> Appender;
  Append : Appender -> ID -> list byte -> World ->
           option error * Appender * World;
  Records : Appender -> list common_Record;
  RecordsForID : Appender -> ID -> list common_Record;
  Appender_Length : Appender -> Z;
  Appender_DataLength : Appender -> Z;
  Complete : Appender -> World -> option error * Appender * World;
  ObjectCombiner : Type;
  Iterator : Type;
  NewRecordIterator :
    list common_Record -> DataReader -> VersionedEncoding -> Iterator;
  NewDedupingIterator : Iterator -> ObjectCombiner -> string -> result Iterator;
  PagedFinder_Find :
    list common_Record -> DataReader -> ObjectCombiner -> VersionedEncoding ->
    string -> ID -> World -> list byte * option error;
  ObjectAdded : ID -> BlockMeta -> BlockMeta
}.

(** ** Runes *)

Definition byte_val (c : ascii) : Z := Z.of_N (N_of_ascii c).

(** [s[i]], for an index the caller has checked. *)
Definition byte_at (s : string) (i : nat) : Z :=
  match String.get i s with
  | Some c => byte_val c
  | None => 0
  end.

Module utf8.
Definition RuneSelf : Z := 128.
Definition locb : Z := 128.
Definition hicb : Z := 191.
Definition xx : Z := 241.

(** The table [first]: information about the first byte of a sequence;
    the low three bits are its size, the high four its accept range. *)
Definition first (c : Z) : Z :=
  if c <? 128 then 240          (* as *)
  else if c <? 194 then xx
  else if c <? 224 then 2       (* s1 *)
  else if c =? 224 then 19      (* s2 *)
  else if c <? 237 then 3       (* s3 *)
  else if c =? 237 then 35      (* s4 *)
  else if c <? 240 then 3       (* s3 *)
  else if c =? 240 then 52      (* s5 *)
  else if c <? 244 then 4       (* s6 *)
  else if c =? 244 then 68      (* s7 *)
  else xx.

Definition acceptRanges (i : Z) : Z * Z :=
  if i =? 0 then (locb, hicb)
  else if i =? 1 then (160, hicb)
  else if i =? 2 then (locb, 159)
  else if i =? 3 then (144, hicb)
  else if i =? 4 then (locb, 143)
  else (0, 0).

(** By how much one turn of the loop of [RuneCountInString] advances [i]
    when [s[i] = c] and [rest] is what follows. *)
Definition advance (c : Z) (rest : string) : nat :=
  if c <? RuneSelf then 1%nat
  else
    let x := first c in
    if x =? xx then 1%nat
    else
      let size := Z.land x 7 in
      if Z.of_nat (S (String.length rest)) <? size then 1%nat
      else
        let '(lo, hi) := acceptRanges (Z.shiftr x 4) in
        let c1 := byte_at rest 0 in
        if (c1 <? lo) || (hi <? c1) then 1%nat
        else if size =? 2 then 2%nat
        else
          let c2 := byte_at rest 1 in
          if (c2 <? locb) || (hicb <? c2) then 1%nat
          else if size =? 3 then 3%nat
          else
            let c3 := byte_at rest 2 in
            if (c3 <? locb) || (hicb <? c3) then 1%nat
            else 4%nat.

(** The loop of [RuneCountInString]; [skip] bytes of [s] belong to the
    rune counted last. *)
Fixpoint count_from (s : string) (skip : nat) : Z :=
  match s with
  | EmptyString => 0
  | String c rest =>
      match skip with
      | S k => count_from rest k
      | O => 1 + count_from rest (Nat.pred (advance (byte_val c) rest))
      end
  end.

(** [utf8.RuneCountInString(s)], which is [len([]rune(s))]: an invalid
    byte counts as one rune. *)
Definition RuneCountInString (s : string) : Z := count_from s 0.
End utf8.

Definition maxDataEncodingLength : Z := 32.

(** ** The block *)

Section Block.
Context {BE : Backend} {O : OS} {C : Codec}.

Record AppendBlock : Type := mkAppendBlock {
  meta : BlockMeta;
  encoding : VersionedEncoding;
  appendFile : option File;
  appender : option Appender;      (* nil until a constructor sets it *)
  filepath : string;
  readFile : option File;
  once : bool                      (* whether the [sync.Once] has fired *)
}.

Definition set_meta (a : AppendBlock) (m : BlockMeta) : AppendBlock :=
  mkAppendBlock m (encoding a) (appendFile a) (appender a) (filepath a)
    (readFile a) (once a).
Definition set_appendFile (a : AppendBlock) (f : option File) : AppendBlock :=
  mkAppendBlock (meta a) (encoding a) f (appender a) (filepath a)
    (readFile a) (once a).
Definition set_appender (a : AppendBlock) (ap : option Appender)
    : AppendBlock :=
  mkAppendBlock (meta a) (encoding a) (appendFile a) ap (filepath a)
    (readFile a) (once a).
Definition set_readFile (a : AppendBlock) (f : option File) : AppendBlock :=
  mkAppendBlock (meta a) (encoding a) (appendFile a) (appender a)
    (filepath a) f (once a).
Definition set_once (a : AppendBlock) (done : bool) : AppendBlock :=
  mkAppendBlock (meta a) (encoding a) (appendFile a) (appender a)
    (filepath a) (readFile a) done.

Definition fullFilename (a : AppendBlock) : string :=
  filepath_Join (filepath a) (filename (meta a)).

(** [file]: the read handle, opened under [a.once].  Returns the handle,
    the error, the block and the world after the call. *)
Definition file (a : AppendBlock) (w : World)
    : option File * option error * AppendBlock * World :=
  if once a then (readFile a, None, a, w)
  else
    let a := set_once a true in
    match readFile a with
    | Some f => (Some f, None, a, w)
    | None =>
        let name := fullFilename a in
        match os_OpenFile name O_RDONLY perm_0644 w with
        | (Ok f, w') => (Some f, None, set_readFile a (Some f), w')
        | (Fail err, w') => (None, Some err, set_readFile a None, w')
        end
    end.

Definition dataEncodingInvalid (dataEncoding : string) : bool :=
  strings_ContainsRune dataEncoding colon
  || (utf8.RuneCountInString dataEncoding >? maxDataEncodingLength).

Definition newAppendBlock (id : UUID) (tenantID : string) (filepath : string)
    (e : Encoding) (dataEncoding : string) (w : World)
    : result AppendBlock * World :=
  if dataEncodingInvalid dataEncoding then
    (Fail (Errorf ("dataEncoding " ++ dataEncoding ++ " is invalid")), w)
  else
    match FromVersion "v2" with
    | Fail err => (Fail err, w)
    | Ok v =>
        let h :=
          mkAppendBlock
            (NewBlockMeta tenantID id (encoding_Version v) e dataEncoding)
            v None None filepath None false in
        let name := fullFilename h in
        let flag :=
          Z.lor (Z.lor (Z.lor O_APPEND O_WRONLY) O_CREATE) O_TRUNC in
        match os_OpenFile name flag perm_0644 w with
        | (Fail err, w') => (Fail err, w')
        | (Ok f, w') =>
            let h := set_appendFile h (Some f) in
            match NewDataWriter (encoding h) f e with
            | Fail err => (Fail err, w')
            | Ok dataWriter =>
                (Ok (set_appender h (Some (NewAppender dataWriter))), w')
            end
        end
    end.

(** The [for] loop of [newAppendBlockFromFile]: the records gathered and
    the warning. *)
Fixpoint replayPages (v : VersionedEncoding) (dataReader : DataReader)
    (records : list common_Record) (currentOffset : Z)
    : list common_Record * option error :=
  match dataReader with
  | [] => (records, None)                (* [NextPage] reports [io.EOF] *)
  | page :: dataReader' =>
      if is_EOF (np_err page) then (records, None)
      else
        match np_err page with
        | Some err => (records, Some err)
        | None =>
            let first := UnmarshalObjectFromReader v (np_buffer page) in
            match um_err first with
            | Some err => (records, Some err)
            | None =>
                (* wal should only ever have one object per page *)
                let second :=
                  UnmarshalObjectFromReader v (um_reader first) in
                if negb (is_EOF (um_err second)) then
                  (records, um_err second)
                else
                  replayPages v dataReader'
                    (records
                       ++ [mkRecord (um_id first) currentOffset
                             (np_pageLen page)])
                    ((currentOffset + np_pageLen page) mod uint64_max)
            end
        end
  end.

(** Returns the block, the warning, the fatal error, and the world. *)
Definition newAppendBlockFromFile (filename : string) (path : string)
    (w : World)
    : option AppendBlock * option error * option error * World :=
  match parseFilename filename with
  | Fail err => (None, None, Some err, w)
  | Ok (blockID, tenantID, version, e, dataEncoding) =>
      match FromVersion version with
      | Fail err => (None, None, Some err, w)
      | Ok v =>
          let b :=
            mkAppendBlock
              (NewBlockMeta tenantID blockID version e dataEncoding)
              v None None path None false in
          (* replay file to extract records *)
          match file b w with
          | (_, Some err, _, w') => (None, None, Some err, w')
          | (f, None, b, w') =>
              match NewDataReader (encoding b) f (meta_Encoding (meta b)) w'
              with
              | Fail err => (None, None, Some err, w')
              | Ok dataReader =>
                  let '(records, warning) :=
                    replayPages (encoding b) dataReader [] 0 in
                  let records := SortRecords records in
                  let ap := NewRecordAppender records in
                  let b := set_appender b (Some ap) in
                  let m := meta b in
                  let b :=
                    set_meta b
                      (mkBlockMeta (Version m) (BlockID m) (MinID m)
                         (MaxID m) (TenantID m) (Appender_Length ap)
                         (Size m) (meta_Encoding m) (DataEncoding m)) in
                  (Some b, warning, None, w')
              end
          end
      end
  end.

Definition Write (a : AppendBlock) (id : ID) (b : list byte) (w : World)
    : exec (option error * AppendBlock * World) :=
  match appender a with
  | None => Panics
  | Some ap =>
      let '(err, ap, w') := Append ap id b w in
      let a := set_appender a (Some ap) in
      match err with
      | Some err => Returns (Some err, a, w')
      | None => Returns (None, set_meta a (ObjectAdded id (meta a)), w')
      end
  end.

Definition DataLength (a : AppendBlock) : exec Z :=
  match appender a with
  | None => Panics
  | Some ap => Returns (Appender_DataLength ap)
  end.

Definition GetIterator (a : AppendBlock) (combiner : ObjectCombiner)
    (w : World) : exec (result Iterator * AppendBlock * World) :=
  let closed :=
    match appendFile a with
    | Some f =>
        match File_Close f w with
        | (Some err, w') => (Some err, a, w')
        | (None, w') => (None, set_appendFile a None, w')
        end
    | None => (None, a, w)
    end in
  match closed with
  | (Some err, a, w) => Returns (Fail err, a, w)
  | (None, a, w) =>
      match appender a with
      | None => Panics
      | Some ap =>
          let records := Records ap in
          match file a w with
          | (_, Some err, a, w) => Returns (Fail err, a, w)
          | (rf, None, a, w) =>
              match NewDataReader (encoding a) rf
                      (meta_Encoding (meta a)) w with
              | Fail err => Returns (Fail err, a, w)
              | Ok dataReader =>
                  let iterator :=
                    NewRecordIterator records dataReader (encoding a) in
                  Returns
                    (NewDedupingIterator iterator combiner
                       (DataEncoding (meta a)), a, w)
              end
          end
      end
  end.

(** Returns the payload ([[]] is the nil slice) and the error. *)
Definition Find (a : AppendBlock) (id : ID) (combiner : ObjectCombiner)
    (w : World) : exec (list byte * option error * AppendBlock * World) :=
  match appender a with
  | None => Panics
  | Some ap =>
      let records := RecordsForID ap id in
      match file a w with
      | (_, Some err, a, w) => Returns ([], Some err, a, w)
      | (f, None, a, w) =>
          if Nat.eqb (List.length records) 0 then Returns ([], None, a, w)
          else
            match NewDataReader (encoding a) f (meta_Encoding (meta a)) w
            with
            | Fail err => Returns ([], Some err, a, w)
            | Ok dataReader =>
                let '(payload, err) :=
                  PagedFinder_Find records dataReader combiner (encoding a)
                    (DataEncoding (meta a)) id w in
                Returns (payload, err, a, w)
            end
      end
  end.

Definition Clear (a : AppendBlock) (w : World)
    : exec (option error * AppendBlock * World) :=
  let '(a, w) :=
    match readFile a with
    | Some f => (set_readFile a None, snd (File_Close f w))
    | None => (a, w)
    end in
  let '(a, w) :=
    match appendFile a with
    | Some f => (set_appendFile a None, snd (File_Close f w))
    | None => (a, w)
    end in
  match appender a with
  | None => Panics
  | Some ap =>
      (* ignore error, it's important to remove the file above all else *)
      let '(_, ap, w) := Complete ap w in
      let a := set_appender a (Some ap) in
      let name := fullFilename a in
      let '(err, w) := os_Remove name w in
      Returns (err, a, w)
  end.

End Block.

(** ** A reference implementation of the collaborators

    Small, executable stand-ins for the uuid library, [backend.Encoding],
    the file system and the page codec.  The general theorems below hold
    for every implementation of the interfaces; the examples run on this
    one. *)
Module Sample.

(** *** uuid: sixteen bytes, printed in the canonical 36-byte form *)

Definition hexdigit (n : N) : ascii :=
  match String.get (N.to_nat n) "0123456789abcdef" with
  | Some c => c
  | None => "0"%char
  end.

Definition hex_byte (b : byte) : string :=
  let n := Byte.to_N b in
  String (hexdigit (N.div n 16)) (String (hexdigit (N.modulo n 16)) EmptyString).

Definition hex (bs : list byte) : string :=
  fold_right (fun b acc => hex_byte b ++ acc) EmptyString bs.

Definition uuid_String (u : list byte) : string :=
  hex (firstn 4 u) ++ "-" ++ hex (firstn 2 (skipn 4 u)) ++ "-"
    ++ hex (firstn 2 (skipn 6 u)) ++ "-" ++ hex (firstn 2 (skipn 8 u))
    ++ "-" ++ hex (skipn 10 u).

(** [xtob]'s table: the value of a hexadecimal digit. *)
Definition xvalue (c : ascii) : option N :=
  let n := N_of_ascii c in
  if ((48 <=? n) && (n <=? 57))%N then Some (n - 48)%N
  else if ((97 <=? n) && (n <=? 102))%N then Some (n - 87)%N
  else if ((65 <=? n) && (n <=? 70))%N then Some (n - 55)%N
  else None.

Definition xtob (s : string) (i : nat) : option byte :=
  match String.get i s, String.get (S i) s with
  | Some c1, Some c2 =>
      match xvalue c1, xvalue c2 with
      | Some h, Some l => Byte.of_N (h * 16 + l)%N
      | _, _ => None
      end
  | _, _ => None
  end.

Fixpoint collect {A : Type} (l : list (option A)) : option (list A) :=
  match l with
  | [] => Some []
  | None :: _ => None
  | Some x :: l' =>
      match collect l' with
      | Some xs => Some (x :: xs)
      | None => None
      end
  end.

Definition is_dash (s : string) (i : nat) : bool :=
  match String.get i s with
  | Some c => Ascii.eqb c "-"%char
  | None => false
  end.

(** [uuid.Parse] on the canonical form; the braced, [urn:uuid:] and
    undashed forms are not part of this sample. *)
Definition uuid_Parse (s : string) : result (list byte) :=
  if negb (Nat.eqb (String.length s) 36) then
    Fail (Errorf "invalid UUID length")
  else if negb (is_dash s 8 && is_dash s 13 && is_dash s 18 && is_dash s 23)
  then Fail (Errorf "invalid UUID format")
  else
    match collect (map (xtob s)
                     [0; 2; 4; 6; 9; 11; 14; 16; 19; 21; 24; 26; 28; 30;
                      32; 34]%nat) with
    | Some u => Ok u
    | None => Fail (Errorf "invalid UUID format")
    end.

(** *** [backend.Encoding] *)

Inductive Encoding : Type :=
| EncNone | EncGZIP | EncLZ4_64k | EncLZ4_256k | EncLZ4_1M | EncLZ4_4M
| EncSnappy | EncZstd.

Definition SupportedEncoding : list Encoding :=
  [EncNone; EncGZIP; EncLZ4_64k; EncLZ4_256k; EncLZ4_1M; EncLZ4_4M;
   EncSnappy; EncZstd].

Definition Encoding_String (e : Encoding) : string :=
  match e with
  | EncNone => "none"
  | EncGZIP => "gzip"
  | EncLZ4_64k => "lz4-64k"
  | EncLZ4_256k => "lz4-256k"
  | EncLZ4_1M => "lz4-1M"
  | EncLZ4_4M => "lz4"
  | EncSnappy => "snappy"
  | EncZstd => "zstd"
  end.

Definition ParseEncoding (str : string) : result Encoding :=
  match find (fun e => String.eqb (Encoding_String e) str) SupportedEncoding
  with
  | Some e => Ok e
  | None => Fail (Errorf (str ++ " is not a valid block encoding"))
  end.

#[global] Instance backend : Backend := {
  UUID := list byte;
  uuid_Nil := repeat x00 16;
  uuid_String := uuid_String;
  uuid_Parse := uuid_Parse;
  Encoding := Encoding;
  EncNone := EncNone;
  Encoding_String := Encoding_String;
  ParseEncoding := ParseEncoding
}.

(** *** The file system *)

Record World : Type := mkWorld {
  files : list (string * list byte);   (* name and contents *)
  opens : Z;                           (* calls of [os.OpenFile] so far *)
  close_fails : bool;                  (* whether [Close] reports an error *)
  write_fails : bool;                  (* whether a page write fails *)
  complete_fails : bool                (* whether [Complete] fails *)
}.

Fixpoint lookup (name : string) (fs : list (string * list byte))
    : option (list byte) :=
  match fs with
  | [] => None
  | (n, data) :: fs' => if String.eqb n name then Some data else lookup name fs'
  end.

Fixpoint remove (name : string) (fs : list (string * list byte))
    : list (string * list byte) :=
  match fs with
  | [] => []
  | (n, data) :: fs' =>
      if String.eqb n name then remove name fs' else (n, data) :: remove name fs'
  end.

Definition with_files (w : World) (fs : list (string * list byte)) : World :=
  mkWorld fs (opens w) (close_fails w) (write_fails w) (complete_fails w).

(** A file handle is the name it was opened under. *)
Definition os_OpenFile (name : string) (flag perm : Z) (w : World)
    : result string * World :=
  let w := mkWorld (files w) (opens w + 1) (close_fails w) (write_fails w)
             (complete_fails w) in
  match lookup name (files w) with
  | Some data =>
      if Z.land flag O_TRUNC =? 0 then (Ok name, w)
      else (Ok name, with_files w ((name, []) :: remove name (files w)))
  | None =>
      if Z.land flag O_CREATE =? 0 then
        (Fail (Errorf ("open " ++ name ++ ": no such file or directory")), w)
      else (Ok name, with_files w ((name, []) :: files w))
  end.

Definition File_Close (f : string) (w : World) : option error * World :=
  (if close_fails w then Some (Errorf ("close " ++ f ++ ": input/output error"))
   else None, w).

Definition os_Remove (name : string) (w : World) : option error * World :=
  match lookup name (files w) with
  | Some _ => (None, with_files w (remove name (files w)))
  | None =>
      (Some (Errorf ("remove " ++ name ++ ": no such file or directory")), w)
  end.

(** [filepath.Join] of a directory and a name that need no cleaning. *)
Definition filepath_Join (dir name : string) : string :=
  if is_empty dir then name else dir ++ "/" ++ name.

#[global] Instance os : OS := {
  World := World;
  File := string;
  os_OpenFile := os_OpenFile;
  File_Close := File_Close;
  os_Remove := os_Remove;
  filepath_Join := filepath_Join
}.

(** *** The page codec
    Modelled from the spec: the codec lives in [tempodb/encoding]; the
    spec has a page as a length-prefixed, self-identifying frame around
    one object.  Here an object is [total | idLength | id | payload] and a
    page is [total | object], the lengths 32-bit little-endian and
    counting their own bytes. *)

Definition byte_of_Z (z : Z) : byte :=
  match Byte.of_N (Z.to_N (z mod 256)) with
  | Some b => b
  | None => x00
  end.

Definition u32le (n : Z) : list byte :=
  [byte_of_Z n; byte_of_Z (n / 256); byte_of_Z (n / 65536);
   byte_of_Z (n / 16777216)].

Definition zlen (bs : list byte) : Z := Z.of_nat (List.length bs).

Definition read_u32le (r : list byte) : option (Z * list byte) :=
  match r with
  | b0 :: b1 :: b2 :: b3 :: r' =>
      Some (Z.of_N (Byte.to_N b0) + 256 * Z.of_N (Byte.to_N b1)
            + 65536 * Z.of_N (Byte.to_N b2)
            + 16777216 * Z.of_N (Byte.to_N b3), r')
  | _ => None
  end.

Definition MarshalObject (id : ID) (b : list byte) : list byte :=
  u32le (8 + zlen id + zlen b) ++ u32le (zlen id) ++ id ++ b.

Definition unmarshal_fail (msg : string) : UnmarshalResult :=
  mkUnmarshal [] [] (Some (Errorf msg)) [].

Definition UnmarshalObjectFromReader (reader : list byte) : UnmarshalResult :=
  match reader with
  | [] => mkUnmarshal [] [] (Some io_EOF) []
  | _ =>
      match read_u32le reader with
      | None => unmarshal_fail "error reading total length"
      | Some (total, r1) =>
          match read_u32le r1 with
          | None => unmarshal_fail "error reading idLength"
          | Some (idLength, r2) =>
              let n := total - 8 in
              if (n <? idLength) || (zlen r2 <? n) then
                unmarshal_fail "read too few bytes"
              else
                mkUnmarshal (firstn (Z.to_nat idLength) r2)
                  (firstn (Z.to_nat (n - idLength))
                     (skipn (Z.to_nat idLength) r2))
                  None (skipn (Z.to_nat n) r2)
          end
      end
  end.

Definition MarshalPage (body : list byte) : list byte :=
  u32le (4 + zlen body) ++ body.

Definition truncated : NextPageResult :=
  mkPage [] 0 (Some (Errorf "unexpected EOF")).

(** The pages a reader delivers from the bytes of a file. *)
Fixpoint readPages (fuel : nat) (data : list byte) : DataReader :=
  match fuel, data with
  | _, [] => []
  | O, _ => [truncated]
  | S fuel', _ =>
      match read_u32le data with
      | None => [truncated]
      | Some (total, r) =>
          let n := total - 4 in
          if (n <? 0) || (zlen r <? n) then [truncated]
          else mkPage (firstn (Z.to_nat n) r) total None
                 :: readPages fuel' (skipn (Z.to_nat n) r)
      end
  end.

Inductive VersionedEncoding : Type := v0Encoding | v1Encoding | v2Encoding.

Definition FromVersion (v : string) : result VersionedEncoding :=
  if String.eqb v "v0" then Ok v0Encoding
  else if String.eqb v "v1" then Ok v1Encoding
  else if String.eqb v "v2" then Ok v2Encoding
  else Fail (Errorf (v ++ " is not a valid block version")).

Definition encoding_Version (v : VersionedEncoding) : string :=
  match v with
  | v0Encoding => "v0"
  | v1Encoding => "v1"
  | v2Encoding => "v2"
  end.

(** A reader over a nil file fails at its first read. *)
Definition NewDataReader (v : VersionedEncoding) (f : option string)
    (e : Encoding) (w : World) : result DataReader :=
  match f with
  | None => Ok [mkPage [] 0 (Some (Errorf "invalid argument"))]
  | Some name =>
      match lookup name (files w) with
      | Some data => Ok (readPages (List.length data) data)
      | None => Ok [mkPage [] 0 (Some (Errorf "file already closed"))]
      end
  end.

(** *** The appender
    Modelled from the spec: write mode is born with a stream and an
    empty index, and [Append] records the page at the running offset and
    leaves the index alone when the write fails; replay mode is born from
    an index and cannot append. *)
Inductive Appender : Type :=
| appender (f : string) (records : list common_Record) (currentOffset : Z)
| recordAppender (records : list common_Record).

Definition Append (ap : Appender) (id : ID) (b : list byte) (w : World)
    : option error * Appender * World :=
  match ap with
  | recordAppender _ => (Some (Errorf "unsupported"), ap, w)
  | appender f records currentOffset =>
      if write_fails w then (Some (Errorf "write: input/output error"), ap, w)
      else
        let page := MarshalPage (MarshalObject id b) in
        let data := match lookup f (files w) with
                    | Some d => d
                    | None => []
                    end in
        (None,
         appender f (records ++ [mkRecord id currentOffset (zlen page)])%list
           ((currentOffset + zlen page) mod uint64_max),
         with_files w ((f, (data ++ page)%list) :: remove f (files w)))
  end.

Definition Records (ap : Appender) : list common_Record :=
  match ap with
  | appender _ records _ => SortRecords records
  | recordAppender records => records
  end.

Definition id_eqb (a b : ID) : bool :=
  match bytes_Compare a b with
  | Eq => true
  | _ => false
  end.

Definition RecordsForID (ap : Appender) (id : ID) : list common_Record :=
  filter (fun r => id_eqb (rec_ID r) id) (Records ap).

Definition Appender_Length (ap : Appender) : Z :=
  Z.of_nat (List.length (Records ap)).

Definition Appender_DataLength (ap : Appender) : Z :=
  match ap with
  | appender _ _ currentOffset => currentOffset
  | recordAppender _ => 0
  end.

Definition Complete (ap : Appender) (w : World)
    : option error * Appender * World :=
  (if complete_fails w then Some (Errorf "flush: input/output error")
   else None, ap, w).

(** *** Reading back *)

Fixpoint pageAt (r : DataReader) (offset start : Z) : option (list byte) :=
  match r with
  | [] => None
  | page :: r' =>
      match np_err page with
      | Some _ => None
      | None =>
          if offset =? start then Some (np_buffer page)
          else pageAt r' (offset + np_pageLen page) start
      end
  end.

Fixpoint findPages (records : list common_Record) (r : DataReader)
    (combine : list byte -> list byte -> list byte) (acc : list byte)
    : list byte * option error :=
  match records with
  | [] => (acc, None)
  | rec :: records' =>
      match pageAt r 0 (Start rec) with
      | None => ([], Some (Errorf "error reading page"))
      | Some buffer =>
          let o := UnmarshalObjectFromReader buffer in
          match um_err o with
          | Some err => ([], Some err)
          | None =>
              findPages records' r combine
                (match acc with
                 | [] => um_object o
                 | _ => combine acc (um_object o)
                 end)
          end
      end
  end.

(** [ObjectAdded].
    Modelled from the spec: the object count goes up by one and the
    minimum and maximum identifiers only ever widen. *)
Definition ObjectAdded (id : ID) (m : BlockMeta) : BlockMeta :=
  mkBlockMeta (Version m) (BlockID m)
    (match MinID m with
     | [] => id
     | _ => match bytes_Compare id (MinID m) with Lt => id | _ => MinID m end
     end)
    (match MaxID m with
     | [] => id
     | _ => match bytes_Compare id (MaxID m) with Gt => id | _ => MaxID m end
     end)
    (TenantID m) (TotalObjects m + 1) (Size m) (meta_Encoding m)
    (DataEncoding m).

#[global] Instance codec : Codec := {
  VersionedEncoding := VersionedEncoding;
  FromVersion := FromVersion;
  encoding_Version := encoding_Version;
  DataWriter := string;
  NewDataWriter := fun _ f _ => Ok f;
  NewDataReader := NewDataReader;
  UnmarshalObjectFromReader := fun _ => UnmarshalObjectFromReader;
  Appender := Appender;
  NewAppender := fun f => appender f [] 0;
  NewRecordAppender := recordAppender;
  Append := Append;
  Records := Records;
  RecordsForID := RecordsForID;
  Appender_Length := Appender_Length;
  Appender_DataLength := Appender_DataLength;
  Complete := Complete;
  ObjectCombiner := list byte -> list byte -> list byte;
  Iterator := list common_Record * DataReader;
  NewRecordIterator := fun records r _ => (records, r);
  NewDedupingIterator := fun it _ _ => Ok it;
  PagedFinder_Find := fun records r combine _ _ _ _ =>
                        findPages records r combine [];
  ObjectAdded := ObjectAdded
}.

End Sample.

(** ** What the claims are stated in

    Predicates over the embedding that the theorems below use. *)

Section FilenameFacts.
Context {BE : Backend}.

(** A block id whose printed form parses back to it and has no [:]. *)
Definition valid_UUID (id : UUID) : Prop :=
  uuid_Parse (uuid_String id) = Ok id
  /\ strings_ContainsRune (uuid_String id) colon = false.

(** An encoding whose token parses back to it and has no [:]. *)
Definition recognized_encoding (e : Encoding) : Prop :=
  ParseEncoding (Encoding_String e) = Ok e
  /\ strings_ContainsRune (Encoding_String e) colon = false.

(** The constraints of the on-disk format on the fields of a meta. *)
Definition format_constraints (m : BlockMeta) : Prop :=
  valid_UUID (BlockID m)
  /\ TenantID m <> EmptyString
  /\ Version m <> EmptyString
  /\ recognized_encoding (meta_Encoding m)
  /\ strings_ContainsRune (DataEncoding m) colon = false
  /\ utf8.RuneCountInString (DataEncoding m) <= maxDataEncodingLength.

(** Parsing the name built from [m] gives back the five fields of [m]. *)
Definition roundtrips (m : BlockMeta) : Prop :=
  parseFilename (filename m)
  = Ok (BlockID m, TenantID m, Version m, meta_Encoding m, DataEncoding m).

(** The number of [:]-separated fields [filename] writes. *)
Definition arity (m : BlockMeta) : nat :=
  if String.eqb (Version m) "v0" then 2%nat
  else if is_empty (DataEncoding m) then 4%nat
  else 5%nat.

(** What the legacy two-field name cannot carry. *)
Definition legacy_defaults (m : BlockMeta) : Prop :=
  Version m = "v0" ->
  meta_Encoding m = EncNone /\ DataEncoding m = EmptyString.

End FilenameFacts.

Section BlockSpec.
Context {BE : Backend} {O : OS} {C : Codec}.

(** Closing a handle that may be nil, the error dropped. *)
Definition close_quietly (f : option File) (w : World) : World :=
  match f with
  | Some f => snd (File_Close f w)
  | None => w
  end.

(** The calls a caller can make on a block, and a change of the world
    that comes from outside the block. *)
Inductive call : Type :=
| call_Write (id : ID) (b : list byte)
| call_Find (id : ID) (combiner : ObjectCombiner)
| call_GetIterator (combiner : ObjectCombiner)
| call_Clear
| call_file
| world_changes (g : World -> World).

Definition perform (c : call) (a : AppendBlock) (w : World)
    : exec (AppendBlock * World) :=
  match c with
  | call_Write id b =>
      match Write a id b w with
      | Returns (_, a', w') => Returns (a', w')
      | Panics => Panics
      end
  | call_Find id combiner =>
      match Find a id combiner w with
      | Returns (_, _, a', w') => Returns (a', w')
      | Panics => Panics
      end
  | call_GetIterator combiner =>
      match GetIterator a combiner w with
      | Returns (_, a', w') => Returns (a', w')
      | Panics => Panics
      end
  | call_Clear =>
      match Clear a w with
      | Returns (_, a', w') => Returns (a', w')
      | Panics => Panics
      end
  | call_file =>
      let '(_, _, a', w') := file a w in Returns (a', w')
  | world_changes g => Returns (a, g w)
  end.

Fixpoint perform_all (cs : list call) (a : AppendBlock) (w : World)
    : exec (AppendBlock * World) :=
  match cs with
  | [] => Returns (a, w)
  | c :: cs' =>
      match perform c a w with
      | Returns (a', w') => perform_all cs' a' w'
      | Panics => Panics
      end
  end.

(** The once-guard has fired and left no read handle. *)
Definition spent (a : AppendBlock) : Prop :=
  once a = true /\ readFile a = None.

(** The four places where [newAppendBlockFromFile] returns a fatal
    error, in the order it reaches them: the name does not parse, the
    version is not known, the file does not open, the data reader is not
    made. *)
Definition fatalCause (name path : string) (w : World) : option error :=
  match parseFilename name with
  | Fail err => Some err
  | Ok (blockID, tenantID, version, e, dataEncoding) =>
      match FromVersion version with
      | Fail err => Some err
      | Ok v =>
          let full :=
            filepath_Join path
              (filename
                 (NewBlockMeta tenantID blockID version e dataEncoding)) in
          match os_OpenFile full O_RDONLY perm_0644 w with
          | (Fail err, _) => Some err
          | (Ok f, w') =>
              match NewDataReader v (Some f) e w' with
              | Fail err => Some err
              | Ok _ => None
              end
          end
      end
  end.

End BlockSpec.

Section ReplaySpec.
Context {BE : Backend} {O : OS} {C : Codec}.

(** A page that arrives without error and holds exactly one object: the
    first decode succeeds and the second reports [io.EOF]. *)
Definition one_object (v : VersionedEncoding) (page : NextPageResult)
    : bool :=
  match np_err page with
  | Some _ => false
  | None =>
      let first := UnmarshalObjectFromReader v (np_buffer page) in
      match um_err first with
      | Some _ => false
      | None =>
          is_EOF (um_err (UnmarshalObjectFromReader v (um_reader first)))
      end
  end.

(** The record of a page that starts at [offset]. *)
Definition record_of (v : VersionedEncoding) (page : NextPageResult)
    (offset : Z) : common_Record :=
  mkRecord (um_id (UnmarshalObjectFromReader v (np_buffer page))) offset
    (np_pageLen page).

(** The records of consecutive pages, the first at [offset]. *)
Fixpoint records_from (v : VersionedEncoding) (pages : list NextPageResult)
    (offset : Z) : list common_Record :=
  match pages with
  | [] => []
  | page :: pages' =>
      record_of v page offset
        :: records_from v pages' ((offset + np_pageLen page) mod uint64_max)
  end.

(** What the walk reports for a page that is not [one_object]. *)
Definition page_failure (v : VersionedEncoding) (page : NextPageResult)
    : option error :=
  if is_EOF (np_err page) then None
  else
    match np_err page with
    | Some err => Some err
    | None =>
        let first := UnmarshalObjectFromReader v (np_buffer page) in
        match um_err first with
        | Some err => Some err
        | None => um_err (UnmarshalObjectFromReader v (um_reader first))
        end
    end.

End ReplaySpec.

(** Identifiers in ascending order. *)
Definition id_le (r1 r2 : common_Record) : Prop :=
  id_leb (rec_ID r1) (rec_ID r2) = true.

Definition sum_lengths (rs : list common_Record) : Z :=
  fold_right (fun r acc => Length r + acc) 0 rs.

(** The bytes a run of pages takes in the file. *)
Definition page_lengths (pages : list NextPageResult) : Z :=
  fold_right (fun page acc => np_pageLen page + acc) 0 pages.

(** Every page that arrives without error has a positive length. *)
Definition pages_positive (r : DataReader) : Prop :=
  Forall (fun page => np_err page = None -> 0 < np_pageLen page) r.

(** The bytes of the pages that arrive without error. *)
Definition data_length (r : DataReader) : Z :=
  fold_right
    (fun page acc =>
       match np_err page with
       | None => np_pageLen page + acc
       | Some _ => acc
       end) 0 r.

(** Records that lie one after the other from [offset] on, none empty. *)
Fixpoint laid_out_from (offset : Z) (rs : list common_Record) : Prop :=
  match rs with
  | [] => True
  | r :: rs' =>
      Start r = offset /\ 0 < Length r
      /\ laid_out_from (offset + Length r) rs'
  end.

(** ** The ring broadcast of the memberlist KV store
    ([dskit/kv/memberlist/broadcast.go]) *)
Module memberlist.

(** [ringBroadcast].  The fields [finished] (a callback) and [logger] take
    no part in [Invalidates] or [Message] and are left out; the debug line
    [Invalidates] logs is not modelled.  [version] is a [uint]. *)
Record ringBroadcast : Type := mkRingBroadcast {
  key : string;
  content : list string;
  version : N;
  msg : list byte
}.

(** A [memberlist.Broadcast]: a ring broadcast, or a value of some other
    implementation of the interface. *)
Inductive Broadcast : Type :=
| ring (b : ringBroadcast)
| other.

(** The inner loop of [Invalidates]: is [oldName] among the names? *)
Fixpoint found (oldName : string) (names : list string) : bool :=
  match names with
  | [] => false
  | newName :: names' =>
      if String.eqb oldName newName then true else found oldName names'
  end.

(** The outer loop of [Invalidates]: [false] at the first old name that is
    not found. *)
Fixpoint all_found (oldNames newNames : list string) : bool :=
  match oldNames with
  | [] => true
  | oldName :: oldNames' =>
      if negb (found oldName newNames) then false
      else all_found oldNames' newNames
  end.

Definition Invalidates (r : ringBroadcast) (old : Broadcast) : bool :=
  match old with
  | ring oldb =>
      if negb (String.eqb (key r) (key oldb)) then false
      else if negb (all_found (content oldb) (content r)) then false
      else if N.leb (version oldb) (version r) then true
      else false
  | other => false
  end.

Definition Message (r : ringBroadcast) : list byte := msg r.

End memberlist.
(** ** Example data

    Concrete blocks, files and worlds over the reference implementation. *)
Module Examples.
Definition id1 : @UUID Sample.backend :=
  [x01; x23; x45; x67; x89; xab; xcd; xef;
   x01; x23; x45; x67; x89; xab; xcd; xef].

(** A standard block, an extended one and a legacy one. *)
Definition meta_standard : BlockMeta :=
  NewBlockMeta "tenant" id1 "v2" Sample.EncSnappy EmptyString.
Definition meta_extended : BlockMeta :=
  NewBlockMeta "tenant" id1 "v2" Sample.EncSnappy "v1".
Definition meta_legacy : BlockMeta :=
  NewBlockMeta "tenant" id1 "v0" Sample.EncNone EmptyString.

(** A tenant id with a [:] in it, and a legacy block with a compressed
    page encoding. *)
Definition meta_colon_tenant : BlockMeta :=
  NewBlockMeta "t:x" id1 "v2" Sample.EncNone EmptyString.
Definition meta_legacy_snappy : BlockMeta :=
  NewBlockMeta "tenant" id1 "v0" Sample.EncSnappy EmptyString.

(** The two bytes of a small e with an acute accent: one rune. *)
Definition e_acute : string :=
  String (ascii_of_nat 195) (String (ascii_of_nat 169) EmptyString).

Fixpoint repeat_string (s : string) (n : nat) : string :=
  match n with
  | O => EmptyString
  | S n' => s ++ repeat_string s n'
  end.

(** Data-encodings of 32 runes (64 bytes), of 33 runes, and with a [:]. *)
Definition dataEncoding32 : string := repeat_string e_acute 32.
Definition dataEncoding33 : string := repeat_string e_acute 33.
Definition dataEncoding_colon : string := "a:b".

(** A world with no files, in which nothing fails. *)
Definition empty_world : @World Sample.os :=
  Sample.mkWorld [] 0 false false false.

(** A well-formed name with a version no codec is registered for, and a
    world that holds an (empty) file of that name. *)
Definition name_v9 : string :=
  Sample.uuid_String id1 ++ ":tenant:v9:none".
Definition world_v9 : @World Sample.os :=
  Sample.mkWorld [(Sample.filepath_Join "wal" name_v9, [])] 0 false false
    false.

(** The name and the path of the extended example block in directory
    [wal]. *)
Definition name_extended : string := filename meta_extended.
Definition path_extended : string := Sample.filepath_Join "wal" name_extended.

(** Three pages of one object each, with identifiers 3, 2 and 1, and a
    page that holds two objects. *)
Definition object_3 : list byte := Sample.MarshalObject [x03] [x0a; x0b].
Definition object_2 : list byte := Sample.MarshalObject [x02] [x0c].
Definition object_1 : list byte := Sample.MarshalObject [x01] [x0d; x0e; x0f].
Definition two_objects : list byte :=
  (Sample.MarshalObject [x02] [x0c] ++ Sample.MarshalObject [x02] [x0d])%list.

Definition page_3 : NextPageResult := mkPage object_3 15 None.
Definition page_2 : NextPageResult := mkPage object_2 14 None.
Definition page_1 : NextPageResult := mkPage object_1 16 None.
Definition page_two_objects : NextPageResult := mkPage two_objects 24 None.

(** A whole file; a file cut in the middle of its third page; a file whose
    second page holds two objects. *)
Definition file_whole : list byte :=
  (Sample.MarshalPage object_3 ++ Sample.MarshalPage object_2
     ++ Sample.MarshalPage object_1)%list.
Definition file_truncated : list byte :=
  (Sample.MarshalPage object_3 ++ Sample.MarshalPage object_2
     ++ firstn 7 (Sample.MarshalPage object_1))%list.
Definition file_two_objects : list byte :=
  (Sample.MarshalPage object_3 ++ Sample.MarshalPage two_objects
     ++ Sample.MarshalPage object_1)%list.

(** The world that holds the extended example block's file with the given
    contents. *)
Definition world_with (data : list byte) : @World Sample.os :=
  Sample.mkWorld [(path_extended, data)] 0 false false false.

(** The block [newAppendBlock] makes for the extended example, and the
    world it leaves. *)
Definition fresh_block : @AppendBlock Sample.backend Sample.os Sample.codec :=
  mkAppendBlock (NewBlockMeta "tenant" id1 "v2" Sample.EncSnappy "v1")
    Sample.v2Encoding (Some path_extended)
    (Some (Sample.appender path_extended [] 0)) "wal" None false.
Definition fresh_world : @World Sample.os :=
  Sample.mkWorld [(path_extended, [])] 1 false false false.

(** The same world with a disk on which writes, closes and flushes fail. *)
Definition failing_world : @World Sample.os :=
  Sample.mkWorld [(path_extended, [])] 1 true true true.

(** The fresh block after [Clear]: the handles are nil, the guard has not
    fired, and the file is gone. *)
Definition cleared_block : @AppendBlock Sample.backend Sample.os Sample.codec :=
  mkAppendBlock (NewBlockMeta "tenant" id1 "v2" Sample.EncSnappy "v1")
    Sample.v2Encoding None
    (Some (Sample.appender path_extended [] 0)) "wal" None false.
Definition cleared_world : @World Sample.os :=
  Sample.mkWorld [] 1 false false false.

(** A combiner that concatenates. *)
Definition concat_combiner : @ObjectCombiner Sample.backend Sample.os Sample.codec :=
  fun a b => (a ++ b)%list.

(** What the replay of [file_whole] returns: the block, with the index
    sorted by identifier, and the world after the file was opened. *)
Definition replayed_block : @AppendBlock Sample.backend Sample.os Sample.codec :=
  mkAppendBlock
    (mkBlockMeta "v2" id1 [] [] "tenant" 3 0 Sample.EncSnappy "v1")
    Sample.v2Encoding None
    (Some (Sample.recordAppender
             [mkRecord [x01] 29 16; mkRecord [x02] 15 14;
              mkRecord [x03] 0 15]))
    "wal" (Some path_extended) true.
Definition replayed_world : @World Sample.os :=
  Sample.mkWorld [(path_extended, file_whole)] 1 false false false.

(** The error of opening the file of the extended example when it is not
    there. *)
Definition open_error : error :=
  Errorf ("open " ++ path_extended ++ ": no such file or directory").

(** What the replay of [file_truncated] returns. *)
Definition truncated_block : @AppendBlock Sample.backend Sample.os Sample.codec :=
  mkAppendBlock
    (mkBlockMeta "v2" id1 [] [] "tenant" 2 0 Sample.EncSnappy "v1")
    Sample.v2Encoding None
    (Some (Sample.recordAppender
             [mkRecord [x02] 15 14; mkRecord [x03] 0 15]))
    "wal" (Some path_extended) true.
Definition truncated_world : @World Sample.os :=
  Sample.mkWorld [(path_extended, file_truncated)] 1 false false false.

(** The fresh block after its read file has been opened, the world then,
    and the block after a [Clear] that follows. *)
Definition read_block : @AppendBlock Sample.backend Sample.os Sample.codec :=
  mkAppendBlock (NewBlockMeta "tenant" id1 "v2" Sample.EncSnappy "v1")
    Sample.v2Encoding (Some path_extended)
    (Some (Sample.appender path_extended [] 0)) "wal"
    (Some path_extended) true.
Definition read_world : @World Sample.os :=
  Sample.mkWorld [(path_extended, [])] 2 false false false.
Definition cleared_read_block
    : @AppendBlock Sample.backend Sample.os Sample.codec :=
  mkAppendBlock (NewBlockMeta "tenant" id1 "v2" Sample.EncSnappy "v1")
    Sample.v2Encoding None
    (Some (Sample.appender path_extended [] 0)) "wal" None true.

(** The name of the extended example block, written out. *)
Definition name_literal : string :=
  "01234567-89ab-cdef-0123-456789abcdef:tenant:v2:snappy:v1".

(** Three ring updates for one key: two ingesters at version 3, the first
    of them at version 5, and both at version 7. *)
Definition update_both_3 : memberlist.ringBroadcast :=
  memberlist.mkRingBroadcast "ring" ["ingester-1"; "ingester-2"] 3 [x01].
Definition update_one_5 : memberlist.ringBroadcast :=
  memberlist.mkRingBroadcast "ring" ["ingester-1"] 5 [x02].
Definition update_both_7 : memberlist.ringBroadcast :=
  memberlist.mkRingBroadcast "ring" ["ingester-2"; "ingester-1"] 7 [x03].

End Examples.
(** ** Further definitions the properties are stated in *)

(** The number of occurrences of a byte in a string. *)
Fixpoint count_byte (s : string) (c : ascii) : nat :=
  match s with
  | EmptyString => 0%nat
  | String c' s' =>
      if Ascii.eqb c' c then S (count_byte s' c) else count_byte s' c
  end.

(** [strings.Join(segments, sep)] for a one-byte separator. *)
Fixpoint strings_Join (segments : list string) (sep : ascii) : string :=
  match segments with
  | [] => EmptyString
  | [seg] => seg
  | seg :: segments' => seg ++ String sep (strings_Join segments' sep)
  end.

Section ReplayFailures.
Context {BE : Backend} {O : OS} {C : Codec}.

(** The page fails with the error [err]: [NextPage] reports it (and it is
    not [io.EOF], which ends the file), or the first decode reports it, or
    the second decode reports it (and it is not [io.EOF], which is what a
    one-object page gives). *)
Definition fails_with (v : VersionedEncoding) (page : NextPageResult)
    (err : error) : Prop :=
  let first := UnmarshalObjectFromReader v (np_buffer page) in
  let second := UnmarshalObjectFromReader v (um_reader first) in
  (np_err page = Some err /\ err <> io_EOF)
  \/ (np_err page = None /\ um_err first = Some err)
  \/ (np_err page = None /\ um_err first = None
      /\ um_err second = Some err /\ err <> io_EOF).

End ReplayFailures.

(** The flags [newAppendBlock] opens its file with. *)
Definition create_flags : Z :=
  Z.lor (Z.lor (Z.lor O_APPEND O_WRONLY) O_CREATE) O_TRUNC.

Section Calls.
Context {BE : Backend} {O : OS} {C : Codec}.

(** Whether a call is [Clear]. *)
Definition is_Clear (c : call) : bool :=
  match c with
  | call_Clear => true
  | _ => false
  end.

(** A sequence of calls with no [Clear] among them. *)
Definition without_Clear (cs : list call) : Prop :=
  Forall (fun c => is_Clear c = false) cs.

(** The read handle [f] is open and the guard has fired. *)
Definition reading (f : File) (a : AppendBlock) : Prop :=
  once a = true /\ readFile a = Some f.

End Calls.
(** * Properties *)

Local Open Scope list_scope.

(** ** Splitting and joining on [:] *)

Lemma strings_Split_none (s : string) (sep : ascii) :
  strings_ContainsRune s sep = false -> strings_Split s sep = [s].
Proof.
  induction s as [|c s IH]; simpl; intro H; [reflexivity|].
  apply orb_false_iff in H as [Hc Hs].
  rewrite Hc, (IH Hs). reflexivity.
Qed.

Lemma strings_Split_app (s t : string) (sep : ascii) :
  strings_ContainsRune s sep = false ->
  strings_Split (s ++ String sep t) sep = s :: strings_Split t sep.
Proof.
  induction s as [|c s IH]; simpl; intro H.
  - rewrite Ascii.eqb_refl. reflexivity.
  - apply orb_false_iff in H as [Hc Hs].
    rewrite Hc, (IH Hs). reflexivity.
Qed.

Lemma is_empty_false_iff (s : string) : is_empty s = false <-> s <> EmptyString.
Proof.
  destruct s; simpl; split; intro H; congruence.
Qed.

Section FilenameLemmas.
Context {BE : Backend}.

Lemma filename_segments (m : BlockMeta) :
  strings_ContainsRune (uuid_String (BlockID m)) colon = false ->
  strings_ContainsRune (TenantID m) colon = false ->
  strings_ContainsRune (Version m) colon = false ->
  strings_ContainsRune (Encoding_String (meta_Encoding m)) colon = false ->
  strings_ContainsRune (DataEncoding m) colon = false ->
  strings_Split (filename m) colon
  = if String.eqb (Version m) "v0" then
      [uuid_String (BlockID m); TenantID m]
    else if is_empty (DataEncoding m) then
      [uuid_String (BlockID m); TenantID m; Version m;
       Encoding_String (meta_Encoding m)]
    else
      [uuid_String (BlockID m); TenantID m; Version m;
       Encoding_String (meta_Encoding m); DataEncoding m].
Proof.
  intros Hu Ht Hv He Hd. unfold filename.
  destruct (String.eqb (Version m) "v0");
    [|destruct (is_empty (DataEncoding m))];
    cbn [append]; fold colon;
    repeat (rewrite strings_Split_app by assumption);
    rewrite strings_Split_none by assumption; reflexivity.
Qed.

End FilenameLemmas.

(** ** The filename scheme *)

Section FilenameRoundTrip.
Context {BE : Backend}.

(** C2 (as amended).  For every meta that satisfies the constraints of the
    format, whose tenant id and version hold no [:], and which, when its
    version is the legacy ["v0"], has the encoding [EncNone] and an empty
    data-encoding: parsing the name [fullFilename] builds gives back the
    block id, tenant id, version, encoding and data-encoding, and the name
    has two, four or five fields according to the version and the
    data-encoding. *)
Theorem filename_roundtrip (m : BlockMeta) :
  format_constraints m ->
  strings_ContainsRune (TenantID m) colon = false ->
  strings_ContainsRune (Version m) colon = false ->
  legacy_defaults m ->
  roundtrips m
  /\ List.length (strings_Split (filename m) colon) = arity m.
Proof.
  intros [[Hparse Hu] [Ht [Hv [[Henc He] [Hd _]]]]] Htc Hvc Hleg.
  apply is_empty_false_iff in Ht. apply is_empty_false_iff in Hv.
  pose proof (filename_segments m Hu Htc Hvc He Hd) as Hsplit.
  unfold roundtrips, arity, parseFilename. rewrite Hsplit. clear Hsplit.
  destruct (String.eqb (Version m) "v0") eqn:Hv0.
  - apply String.eqb_eq in Hv0. destruct (Hleg Hv0) as [HeN HdE].
    cbn. rewrite Hparse, <- HeN, Henc, Ht. cbn.
    rewrite Hv0, HdE. split; reflexivity.
  - destruct (is_empty (DataEncoding m)) eqn:Hde.
    + cbn. rewrite Hparse, Henc, Ht, Hv. cbn.
      destruct (DataEncoding m); [split; reflexivity | discriminate].
    + cbn. rewrite Hparse, Henc, Ht, Hv. cbn. split; reflexivity.
Qed.

End FilenameRoundTrip.

Ltac solve_format_constraints :=
  unfold format_constraints, valid_UUID, recognized_encoding;
  repeat split; try discriminate; try (vm_compute; reflexivity);
  try (vm_compute; discriminate).

(** C2, a witness: the three example blocks, one per arity. *)
Lemma filename_roundtrip_witness :
  (roundtrips Examples.meta_legacy
   /\ List.length (strings_Split (filename Examples.meta_legacy) colon) = 2%nat)
  /\ (roundtrips Examples.meta_standard
      /\ List.length (strings_Split (filename Examples.meta_standard) colon)
         = 4%nat)
  /\ (roundtrips Examples.meta_extended
      /\ List.length (strings_Split (filename Examples.meta_extended) colon)
         = 5%nat).
Proof.
  repeat apply conj.
  1,2: apply (filename_roundtrip Examples.meta_legacy);
    [solve_format_constraints | reflexivity | reflexivity
    | intros _; split; reflexivity].
  1,2: apply (filename_roundtrip Examples.meta_standard);
    [solve_format_constraints | reflexivity | reflexivity
    | intros H; discriminate H].
  1,2: apply (filename_roundtrip Examples.meta_extended);
    [solve_format_constraints | reflexivity | reflexivity
    | intros H; discriminate H].
Defined.

(** C2, as stated, fails: both metas satisfy the constraints the claim
    lists; the name of the first has a tenant id with a [:] and does not
    parse, the name of the second is a legacy name and parses to the
    encoding [EncNone] where the meta has snappy. *)
Lemma filename_roundtrip_counterexample :
  (format_constraints Examples.meta_colon_tenant
   /\ ~ roundtrips Examples.meta_colon_tenant)
  /\ (format_constraints Examples.meta_legacy_snappy
      /\ ~ roundtrips Examples.meta_legacy_snappy).
Proof.
  split; (split; [solve_format_constraints |]);
    unfold roundtrips; vm_compute; intro H; discriminate H.
Qed.

(** ** Creating a block *)

Lemma dataEncodingInvalid_false_iff (dataEncoding : string) :
  dataEncodingInvalid dataEncoding = false
  <-> strings_ContainsRune dataEncoding colon = false
      /\ utf8.RuneCountInString dataEncoding <= maxDataEncodingLength.
Proof.
  unfold dataEncodingInvalid. rewrite orb_false_iff.
  rewrite Z.gtb_ltb, Z.ltb_ge. reflexivity.
Qed.

Section Create.
Context {BE : Backend} {O : OS} {C : Codec}.

Lemma newAppendBlock_rejects (id : UUID) (tenantID path : string)
    (e : Encoding) (dataEncoding : string) (w : World) :
  dataEncodingInvalid dataEncoding = true ->
  newAppendBlock id tenantID path e dataEncoding w
  = (Fail (Errorf ("dataEncoding " ++ dataEncoding ++ " is invalid")), w).
Proof. intro H. unfold newAppendBlock. rewrite H. reflexivity. Qed.

(** C8.  [newAppendBlock] accepts a data-encoding of exactly 32 runes
    (with no [:] in it): when the version, the file and the data writer
    are obtained, it returns a block that carries the data-encoding.  It
    rejects one of 33 runes, and any one that holds a [:], with the
    invalid-input error, and leaves the world as it was: no file is
    opened or created, and no block is returned. *)
Theorem newAppendBlock_dataEncoding (id : UUID) (tenantID path : string)
    (e : Encoding) (dataEncoding : string) (w : World) :
  (utf8.RuneCountInString dataEncoding = 32 ->
   strings_ContainsRune dataEncoding colon = false ->
   forall v f w' dataWriter,
     FromVersion "v2" = Ok v ->
     os_OpenFile
       (filepath_Join path
          (filename
             (NewBlockMeta tenantID id (encoding_Version v) e dataEncoding)))
       (Z.lor (Z.lor (Z.lor O_APPEND O_WRONLY) O_CREATE) O_TRUNC)
       perm_0644 w = (Ok f, w') ->
     NewDataWriter v f e = Ok dataWriter ->
     exists h,
       newAppendBlock id tenantID path e dataEncoding w = (Ok h, w')
       /\ DataEncoding (meta h) = dataEncoding
       /\ appendFile h = Some f)
  /\ (utf8.RuneCountInString dataEncoding = 33 ->
      newAppendBlock id tenantID path e dataEncoding w
      = (Fail (Errorf ("dataEncoding " ++ dataEncoding ++ " is invalid")),
         w))
  /\ (strings_ContainsRune dataEncoding colon = true ->
      newAppendBlock id tenantID path e dataEncoding w
      = (Fail (Errorf ("dataEncoding " ++ dataEncoding ++ " is invalid")),
         w)).
Proof.
  repeat split.
  - intros Hlen Hcolon v f w' dataWriter Hv Hopen Hwriter.
    assert (Hvalid : dataEncodingInvalid dataEncoding = false).
    { apply dataEncodingInvalid_false_iff. split; [assumption|].
      rewrite Hlen. unfold maxDataEncodingLength. lia. }
    unfold newAppendBlock. rewrite Hvalid, Hv.
    unfold fullFilename; cbn [filepath meta].
    rewrite Hopen. cbn [set_appendFile encoding]. rewrite Hwriter.
    eexists. repeat split.
  - intro Hlen. apply newAppendBlock_rejects.
    unfold dataEncodingInvalid. rewrite Hlen.
    apply orb_true_r.
  - intro Hcolon. apply newAppendBlock_rejects.
    unfold dataEncodingInvalid. rewrite Hcolon. reflexivity.
Qed.

End Create.

(** C8, a witness: 32 two-byte runes are accepted and the file is created;
    33 are rejected; ["a:b"] is rejected. *)
Lemma newAppendBlock_dataEncoding_witness :
  (exists h,
     @newAppendBlock Sample.backend Sample.os Sample.codec Examples.id1 "tenant" "wal" Sample.EncNone
       Examples.dataEncoding32 Examples.empty_world
     = (Ok h,
        Sample.mkWorld
          [(Sample.filepath_Join "wal"
              (filename
                 (NewBlockMeta "tenant" Examples.id1 "v2" Sample.EncNone
                    Examples.dataEncoding32)), [])]
          1 false false false)
     /\ DataEncoding (meta h) = Examples.dataEncoding32
     /\ appendFile h
        = Some (Sample.filepath_Join "wal"
                  (filename
                     (NewBlockMeta "tenant" Examples.id1 "v2" Sample.EncNone
                        Examples.dataEncoding32))))
  /\ @newAppendBlock Sample.backend Sample.os Sample.codec Examples.id1 "tenant" "wal" Sample.EncNone
       Examples.dataEncoding33 Examples.empty_world
     = (Fail (Errorf ("dataEncoding " ++ Examples.dataEncoding33
                        ++ " is invalid")), Examples.empty_world)
  /\ @newAppendBlock Sample.backend Sample.os Sample.codec Examples.id1 "tenant" "wal" Sample.EncNone
       Examples.dataEncoding_colon Examples.empty_world
     = (Fail (Errorf ("dataEncoding " ++ Examples.dataEncoding_colon
                        ++ " is invalid")), Examples.empty_world).
Proof.
  split; [|split].
  - eapply (proj1 (@newAppendBlock_dataEncoding Sample.backend Sample.os Sample.codec
                     Examples.id1 "tenant" "wal" Sample.EncNone
                     Examples.dataEncoding32 Examples.empty_world));
      vm_compute; reflexivity.
  - apply (proj1 (proj2 (@newAppendBlock_dataEncoding Sample.backend Sample.os Sample.codec
                           Examples.id1 "tenant" "wal" Sample.EncNone
                           Examples.dataEncoding33 Examples.empty_world))).
    vm_compute; reflexivity.
  - apply (proj2 (proj2 (@newAppendBlock_dataEncoding Sample.backend Sample.os Sample.codec
                           Examples.id1 "tenant" "wal" Sample.EncNone
                           Examples.dataEncoding_colon Examples.empty_world))).
    vm_compute; reflexivity.
Defined.

(** ** The methods of a block *)

Section Methods.
Context {BE : Backend} {O : OS} {C : Codec}.

(** C5.  [Write] hands the pair to the appender.  When [Append] reports
    an error, [Write] returns that error and the meta of the block is the
    one it had before the call; when [Append] reports none, [Write]
    returns nil and the meta is the old one after [ObjectAdded]. *)
Theorem Write_bookkeeping (a : AppendBlock) (ap : Appender) (id : ID)
    (b : list byte) (w : World) (err : option error) (ap' : Appender)
    (w' : World) :
  appender a = Some ap ->
  Append ap id b w = (err, ap', w') ->
  exists a',
    Write a id b w = Returns (err, a', w')
    /\ appender a' = Some ap'
    /\ (forall e, err = Some e -> meta a' = meta a)
    /\ (err = None -> meta a' = ObjectAdded id (meta a)).
Proof.
  intros Hap Happend. unfold Write. rewrite Hap, Happend.
  destruct err as [e|]; eexists; repeat split; intros; congruence.
Qed.

(** C7.  [Clear] closes the read handle and the write handle when they are
    not nil, dropping what [Close] reports, completes the appender,
    dropping what [Complete] reports, and removes the file: the error it
    returns is the one [os.Remove] returns, whatever the closes and the
    completion reported, and both handles are nil afterwards. *)
Theorem Clear_surfaces_only_removal (a : AppendBlock) (ap : Appender)
    (w : World) :
  appender a = Some ap ->
  let closed :=
    close_quietly (appendFile a) (close_quietly (readFile a) w) in
  let completed := snd (Complete ap closed) in
  exists a',
    Clear a w
    = Returns (fst (os_Remove (fullFilename a) completed), a',
               snd (os_Remove (fullFilename a) completed))
    /\ readFile a' = None
    /\ appendFile a' = None.
Proof.
  intros Hap closed completed. subst closed completed.
  unfold Clear, close_quietly.
  destruct a as [m v af apo fp rf o]; cbn in Hap |- *; subst apo.
  destruct rf as [rf|], af as [af|]; cbn;
    match goal with
    | |- context [Complete ap ?w0] =>
        destruct (Complete ap w0) as [[cerr ap'] w1] eqn:Hc
    end; cbn; unfold fullFilename; cbn;
    match goal with
    | |- context [os_Remove ?n ?w0] =>
        destruct (os_Remove n w0) as [rerr w2]
    end; cbn; eexists; repeat split.
Qed.

(** C6 (as amended).  When the index has no record for the identifier and
    the guarded open of the read file reports no error, [Find] returns a
    nil payload and a nil error. *)
Theorem Find_absent (a : AppendBlock) (ap : Appender) (id : ID)
    (combiner : ObjectCombiner) (w : World) (f : option File)
    (a' : AppendBlock) (w' : World) :
  appender a = Some ap ->
  RecordsForID ap id = [] ->
  file a w = (f, None, a', w') ->
  Find a id combiner w = Returns ([], None, a', w').
Proof.
  intros Hap Hrecords Hfile. unfold Find.
  rewrite Hap, Hfile, Hrecords. reflexivity.
Qed.

(** When the guarded open reports an error, [Find] returns it, whether or
    not the index has a record for the identifier. *)
Lemma Find_open_error (a : AppendBlock) (ap : Appender) (id : ID)
    (combiner : ObjectCombiner) (w : World) (f : option File) (err : error)
    (a' : AppendBlock) (w' : World) :
  appender a = Some ap ->
  file a w = (f, Some err, a', w') ->
  Find a id combiner w = Returns ([], Some err, a', w').
Proof.
  intros Hap Hfile. unfold Find. rewrite Hap, Hfile. reflexivity.
Qed.

End Methods.

(** ** The guarded open of the read file *)

Section OnceGuard.
Context {BE : Backend} {O : OS} {C : Codec}.

Lemma file_spent (a : AppendBlock) (w : World) :
  spent a -> file a w = (None, None, a, w).
Proof.
  intros [Honce Hread]. unfold file. rewrite Honce, Hread. reflexivity.
Qed.

(** Every call fires or keeps the guard. *)
Lemma file_fires (a : AppendBlock) (w : World) :
  once (snd (fst (file a w))) = true.
Proof.
  unfold file. destruct (once a) eqn:Honce; [exact Honce|].
  destruct (readFile (set_once a true)); [reflexivity|].
  destruct (os_OpenFile _ _ _ w) as [[f|err] w']; reflexivity.
Qed.

(** A block whose guard is spent, with an appender. *)
Definition spent_with_appender (a : AppendBlock) : Prop :=
  spent a /\ exists ap, appender a = Some ap.

(* Case analysis on an innermost scrutinee of the goal. *)
Ltac break_match :=
  match goal with
  | |- context [match ?x with _ => _ end] =>
      lazymatch x with
      | context [match _ with _ => _ end] => fail
      | _ => destruct x
      end
  end.

Lemma perform_keeps_spent (c : call) (a : AppendBlock) (w : World) :
  spent_with_appender a ->
  exists a' w',
    perform c a w = Returns (a', w') /\ spent_with_appender a'.
Proof.
  intros [[Honce Hread] [ap Hap]].
  destruct a as [m v af apo fp rf o]; cbn in Honce, Hread, Hap; subst.
  destruct c as [id b|id combiner|combiner| | |g]; cbn.
  - unfold Write; cbn. destruct (Append ap id b w) as [[[e|] ap'] w'];
      cbn; do 2 eexists; (split; [reflexivity|]);
      (split; [split; reflexivity | eexists; reflexivity]).
  - unfold Find, file; cbn.
    repeat break_match; cbn;
      do 2 eexists; (split; [reflexivity|]);
      (split; [split; reflexivity | eexists; reflexivity]).
  - unfold GetIterator, file; cbn.
    destruct af as [f|]; cbn.
    + destruct (File_Close f w) as [[e|] w']; cbn;
        repeat break_match; cbn;
        do 2 eexists; (split; [reflexivity|]);
        (split; [split; reflexivity | eexists; reflexivity]).
    + repeat break_match; cbn;
        do 2 eexists; (split; [reflexivity|]);
        (split; [split; reflexivity | eexists; reflexivity]).
  - unfold Clear; cbn.
    destruct af as [f|]; cbn;
      repeat break_match; cbn;
      do 2 eexists; (split; [reflexivity|]);
      (split; [split; reflexivity | eexists; reflexivity]).
  - unfold file; cbn. do 2 eexists. split; [reflexivity|].
    split; [split; reflexivity | eexists; reflexivity].
  - do 2 eexists. split; [reflexivity|].
    split; [split; reflexivity | eexists; reflexivity].
Qed.

Lemma perform_all_keeps_spent (cs : list call) :
  forall (a : AppendBlock) (w : World),
    spent_with_appender a ->
    exists a' w',
      perform_all cs a w = Returns (a', w') /\ spent_with_appender a'.
Proof.
  induction cs as [|c cs IH]; intros a w Ha; cbn.
  - exists a, w. split; [reflexivity | exact Ha].
  - destruct (perform_keeps_spent c a w Ha) as (a1 & w1 & Hc & Ha1).
    rewrite Hc. apply IH. exact Ha1.
Qed.

(** C10.  On a block whose guard has not fired and whose read handle is
    nil, a call of [file] at which [os.OpenFile] fails returns that error;
    after it, whatever calls of [Write], [Find], [GetIterator], [Clear]
    and [file] follow and however the world changes in between, every
    call of [file] returns a nil handle and a nil error and leaves the
    block and the world as they are: the open is not tried again, and the
    failure is not reported again.  (The [file] call inside a later
    [Find] or [GetIterator] is one of these calls, made on the block as
    the calls before it left it.) *)
Theorem file_open_failure_not_cached (a : AppendBlock) (ap : Appender)
    (w : World) (err : error) (w1 : World) :
  appender a = Some ap ->
  once a = false ->
  readFile a = None ->
  os_OpenFile (fullFilename a) O_RDONLY perm_0644 w = (Fail err, w1) ->
  exists a1,
    file a w = (None, Some err, a1, w1)
    /\ forall (cs : list call) (w2 : World),
         exists a2 w3,
           perform_all cs a1 w2 = Returns (a2, w3)
           /\ forall w4, file a2 w4 = (None, None, a2, w4).
Proof.
  intros Hap Honce Hread Hopen.
  exists (set_readFile (set_once a true) None). split.
  - unfold file. rewrite Honce. cbn [readFile set_once]. rewrite Hread.
    unfold fullFilename in *. cbn [filepath meta set_once].
    rewrite Hopen. reflexivity.
  - intros cs w2.
    destruct (perform_all_keeps_spent cs
                (set_readFile (set_once a true) None) w2)
      as (a2 & w3 & Hrun & [Hspent _]).
    + split; [split; reflexivity | exists ap; exact Hap].
    + exists a2, w3. split; [exact Hrun|].
      intro w4. apply file_spent. exact Hspent.
Qed.

End OnceGuard.

(** ** Replay: fatal errors *)

Section ReplayFatal.
Context {BE : Backend} {O : OS} {C : Codec}.

(** C3 (as amended).  [newAppendBlockFromFile] returns a fatal error in
    exactly four cases: the filename does not parse, [FromVersion] does
    not know the version, the data file does not open, or the data reader
    cannot be made.  The fatal error is the error of the first of these
    that fails; with a fatal error there is no block and no warning, and
    in every other case there is a block. *)
Theorem replay_fatal_cases (name path : string) (w : World) :
  let '(b, warning, fatal, _) := newAppendBlockFromFile name path w in
  fatal = fatalCause name path w
  /\ (fatal <> None -> b = None /\ warning = None)
  /\ (fatal = None -> exists blk, b = Some blk).
Proof.
  unfold newAppendBlockFromFile, fatalCause.
  destruct (parseFilename name) as [[[[[blockID tenantID] version] e] de]|err].
  2: { repeat split; congruence. }
  destruct (FromVersion version) as [v|err].
  2: { repeat split; congruence. }
  unfold file, fullFilename. cbn.
  destruct (os_OpenFile _ O_RDONLY perm_0644 w) as [[f|err] w'].
  2: { repeat split; congruence. }
  cbn. destruct (NewDataReader v (Some f) e w') as [dataReader|err].
  2: { repeat split; congruence. }
  destruct (replayPages v dataReader [] 0) as [records warning].
  repeat split; try congruence. intros _. eexists. reflexivity.
Qed.

End ReplayFatal.

(** C3, as stated, fails: the name parses and the file opens, and the
    replay still ends in a fatal error with no block, because the version
    in the name is not one [FromVersion] knows. *)
Lemma replay_fatal_counterexample :
  (exists fields, parseFilename Examples.name_v9 = Ok fields)
  /\ (exists f w',
        os_OpenFile (Sample.filepath_Join "wal" Examples.name_v9) O_RDONLY
          perm_0644 Examples.world_v9 = (Ok f, w'))
  /\ newAppendBlockFromFile Examples.name_v9 "wal" Examples.world_v9
     = (None, None, Some (Errorf "v9 is not a valid block version"),
        Examples.world_v9).
Proof.
  split; [|split].
  - eexists. reflexivity.
  - do 2 eexists. reflexivity.
  - reflexivity.
Qed.

(** ** Sorting the index *)

Lemma bytes_Compare_antisym (a : list byte) :
  forall b, bytes_Compare b a = CompOpp (bytes_Compare a b).
Proof.
  induction a as [|x a IH]; intros [|y b]; simpl; try reflexivity.
  rewrite (N.compare_antisym (Byte.to_N x) (Byte.to_N y)).
  destruct (N.compare (Byte.to_N x) (Byte.to_N y)); simpl;
    [apply IH | reflexivity | reflexivity].
Qed.

Lemma id_leb_total (a b : ID) : id_leb a b = false -> id_leb b a = true.
Proof.
  unfold id_leb. rewrite (bytes_Compare_antisym a b).
  destruct (bytes_Compare a b); simpl; congruence.
Qed.

Lemma id_leb_trans (a : ID) :
  forall b c, id_leb a b = true -> id_leb b c = true -> id_leb a c = true.
Proof.
  unfold id_leb.
  induction a as [|x a IH]; intros [|y b] [|z c]; simpl; try congruence.
  destruct (N.compare_spec (Byte.to_N x) (Byte.to_N y));
    destruct (N.compare_spec (Byte.to_N y) (Byte.to_N z));
    destruct (N.compare_spec (Byte.to_N x) (Byte.to_N z));
    try lia; try congruence.
  apply IH.
Qed.

Lemma insertRecord_perm (r : common_Record) (l : list common_Record) :
  Permutation (insertRecord r l) (r :: l).
Proof.
  induction l as [|r' l IH]; simpl; [reflexivity|].
  destruct (id_leb (rec_ID r) (rec_ID r')); [reflexivity|].
  rewrite IH. apply perm_swap.
Qed.

Lemma SortRecords_perm (l : list common_Record) :
  Permutation (SortRecords l) l.
Proof.
  induction l as [|r l IH]; simpl; [reflexivity|].
  rewrite insertRecord_perm. apply perm_skip. exact IH.
Qed.

Lemma insertRecord_sorted (r : common_Record) (l : list common_Record) :
  StronglySorted id_le l -> StronglySorted id_le (insertRecord r l).
Proof.
  induction 1 as [|r' l Hsorted IH Hall]; simpl.
  - constructor; constructor.
  - destruct (id_leb (rec_ID r) (rec_ID r')) eqn:Hle.
    + constructor; [constructor; assumption|].
      constructor; [exact Hle|].
      eapply Forall_impl; [|exact Hall].
      intros r'' H. unfold id_le in *. eapply id_leb_trans; eassumption.
    + constructor; [exact IH|].
      eapply Permutation_Forall; [symmetry; apply insertRecord_perm|].
      constructor; [|exact Hall].
      apply id_leb_total. exact Hle.
Qed.

Lemma SortRecords_sorted (l : list common_Record) :
  StronglySorted id_le (SortRecords l).
Proof.
  induction l as [|r l IH]; simpl; [constructor|].
  apply insertRecord_sorted. exact IH.
Qed.

(** ** Replay: the walk over the pages *)

Section ReplayWalk.
Context {BE : Backend} {O : OS} {C : Codec}.

(** One turn of the loop. *)
Lemma replayPages_cons (v : VersionedEncoding) (page : NextPageResult)
    (r : DataReader) (records : list common_Record) (offset : Z) :
  replayPages v (page :: r) records offset
  = if one_object v page then
      replayPages v r (records ++ [record_of v page offset])
        ((offset + np_pageLen page) mod uint64_max)
    else (records, page_failure v page).
Proof.
  unfold one_object, page_failure, record_of. cbn [replayPages].
  destruct (np_err page) as [[| |]|]; cbn; try reflexivity.
  destruct (um_err (UnmarshalObjectFromReader v (np_buffer page)))
    as [e|]; [reflexivity|].
  destruct (is_EOF _); reflexivity.
Qed.

(** The walk only ever adds to the records it has. *)
Lemma replayPages_acc (v : VersionedEncoding) (r : DataReader) :
  forall records offset,
    replayPages v r records offset
    = ((records ++ fst (replayPages v r [] offset))%list,
       snd (replayPages v r [] offset)).
Proof.
  induction r as [|page r IH]; intros records offset.
  - cbn. rewrite app_nil_r. reflexivity.
  - rewrite !replayPages_cons. destruct (one_object v page).
    + cbn [app].
      rewrite (IH (records ++ [record_of v page offset])%list).
      rewrite (IH [record_of v page offset]). cbn [fst snd].
      rewrite <- app_assoc. reflexivity.
    + cbn. rewrite app_nil_r. reflexivity.
Qed.

(** The walk takes every leading page that holds one object. *)
Lemma replayPages_leading (v : VersionedEncoding) (good : list NextPageResult) :
  forall rest offset,
    Forall (fun page => one_object v page = true) good ->
    exists offset',
      replayPages v (good ++ rest) [] offset
      = ((records_from v good offset
            ++ fst (replayPages v rest [] offset'))%list,
         snd (replayPages v rest [] offset')).
Proof.
  induction good as [|page good IH]; intros rest offset Hgood.
  - exists offset. cbn. destruct (replayPages v rest [] offset); reflexivity.
  - inversion Hgood as [|? ? Hpage Hgood']; subst.
    cbn [app]. rewrite replayPages_cons, Hpage, replayPages_acc.
    destruct (IH rest ((offset + np_pageLen page) mod uint64_max) Hgood')
      as [offset' Heq].
    exists offset'. rewrite Heq. reflexivity.
Qed.

(** The walk stops at the first page that does not hold exactly one
    object: the records are those of the pages before it, and what is
    reported is [page_failure] of that page. *)
Lemma replayPages_stops (v : VersionedEncoding) (good : list NextPageResult)
    (bad : NextPageResult) (rest : list NextPageResult) :
  Forall (fun page => one_object v page = true) good ->
  one_object v bad = false ->
  replayPages v (good ++ bad :: rest) [] 0
  = (records_from v good 0, page_failure v bad).
Proof.
  intros Hgood Hbad.
  destruct (replayPages_leading v good (bad :: rest) 0 Hgood) as [off Heq].
  rewrite Heq, replayPages_cons, Hbad. cbn. rewrite app_nil_r. reflexivity.
Qed.

(** A file of whole pages is walked to its end, with no warning. *)
Lemma replayPages_complete (v : VersionedEncoding) (good : list NextPageResult) :
  Forall (fun page => one_object v page = true) good ->
  replayPages v good [] 0 = (records_from v good 0, None).
Proof.
  intro Hgood.
  destruct (replayPages_leading v good [] 0 Hgood) as [off Heq].
  rewrite app_nil_r in Heq. rewrite Heq. cbn. rewrite app_nil_r. reflexivity.
Qed.

(** A page that fails with an error is reported with that error. *)
Lemma page_failure_reported (v : VersionedEncoding) (page : NextPageResult)
    (err : error) :
  one_object v page = false ->
  (np_err page = Some err /\ err <> io_EOF
   \/ np_err page = None
      /\ um_err (UnmarshalObjectFromReader v (np_buffer page)) = Some err
   \/ np_err page = None
      /\ um_err (UnmarshalObjectFromReader v (np_buffer page)) = None
      /\ um_err (UnmarshalObjectFromReader v
                   (um_reader (UnmarshalObjectFromReader v (np_buffer page))))
         = Some err) ->
  page_failure v page = Some err.
Proof.
  unfold one_object, page_failure.
  intros Hbad [[Hp Hne]|[[Hp Hf]|[Hp [Hf Hs]]]]; rewrite Hp in *; cbn.
  - destruct err; try reflexivity. congruence.
  - rewrite Hf. reflexivity.
  - rewrite Hf in *. exact Hs.
Qed.

(** The shape of every walk. *)
Lemma replayPages_split (v : VersionedEncoding) (r : DataReader) :
  forall offset,
    exists good rest,
      r = good ++ rest
      /\ Forall (fun page => one_object v page = true) good
      /\ fst (replayPages v r [] offset) = records_from v good offset
      /\ (rest = [] /\ snd (replayPages v r [] offset) = None
          \/ exists bad rest',
               rest = bad :: rest' /\ one_object v bad = false
               /\ snd (replayPages v r [] offset) = page_failure v bad).
Proof.
  induction r as [|page r IH]; intro offset.
  - exists [], []. repeat split; [constructor | left; split; reflexivity].
  - rewrite replayPages_cons. destruct (one_object v page) eqn:Hone.
    + destruct (IH ((offset + np_pageLen page) mod uint64_max))
        as (good & rest & Hr & Hgood & Hfst & Hsnd).
      exists (page :: good), rest. rewrite replayPages_acc. cbn [fst snd].
      repeat split.
      * cbn. rewrite Hr. reflexivity.
      * constructor; assumption.
      * cbn [app records_from]. rewrite Hfst. reflexivity.
      * exact Hsnd.
    + exists [], (page :: r). repeat split; [constructor|].
      right. exists page, r. repeat split. exact Hone.
Qed.

(** C4 (the code at the failing input).  A page that arrives without
    error and from which a second object decodes, after any number of
    one-object pages: the walk stops there and the page adds no record,
    and the warning is nil. *)
Theorem replay_second_object_no_warning (v : VersionedEncoding)
    (good : list NextPageResult) (page : NextPageResult)
    (rest : list NextPageResult) :
  Forall (fun p => one_object v p = true) good ->
  np_err page = None ->
  um_err (UnmarshalObjectFromReader v (np_buffer page)) = None ->
  um_err (UnmarshalObjectFromReader v
            (um_reader (UnmarshalObjectFromReader v (np_buffer page))))
  = None ->
  replayPages v (good ++ page :: rest) [] 0 = (records_from v good 0, None).
Proof.
  intros Hgood Hp Hfirst Hsecond.
  rewrite (replayPages_stops v good page rest Hgood).
  - unfold page_failure. rewrite Hp. cbn. rewrite Hfirst, Hsecond.
    reflexivity.
  - unfold one_object. rewrite Hp, Hfirst, Hsecond. reflexivity.
Qed.

End ReplayWalk.

(** ** Replay: the offsets of the index *)

Lemma laid_out_lower (rs : list common_Record) :
  forall offset j r,
    laid_out_from offset rs -> nth_error rs j = Some r -> offset <= Start r.
Proof.
  induction rs as [|r0 rs IH]; intros offset [|j] r Hl Hj; cbn in *;
    try discriminate.
  - injection Hj as <-. lia.
  - destruct Hl as (_ & Hpos & Hl). specialize (IH _ _ _ Hl Hj). lia.
Qed.

Lemma laid_out_prefix_sum (rs : list common_Record) :
  forall offset i r,
    laid_out_from offset rs -> nth_error rs i = Some r ->
    Start r = offset + sum_lengths (firstn i rs).
Proof.
  unfold sum_lengths.
  induction rs as [|r0 rs IH]; intros offset [|i] r Hl Hi; cbn in *;
    try discriminate.
  - injection Hi as <-. lia.
  - destruct Hl as (_ & _ & Hl). rewrite (IH _ _ _ Hl Hi). lia.
Qed.

Lemma laid_out_disjoint (rs : list common_Record) :
  forall offset i j ri rj,
    laid_out_from offset rs -> (i < j)%nat ->
    nth_error rs i = Some ri -> nth_error rs j = Some rj ->
    Start ri + Length ri <= Start rj /\ Start ri < Start rj.
Proof.
  induction rs as [|r0 rs IH]; intros offset i j ri rj Hl Hij Hi Hj;
    destruct i as [|i], j as [|j]; cbn in *; try discriminate; try lia.
  - injection Hi as <-. destruct Hl as (Hs & Hpos & Hl).
    pose proof (laid_out_lower _ _ _ _ Hl Hj). lia.
  - destruct Hl as (_ & _ & Hl).
    apply (IH _ i j ri rj Hl); [lia | exact Hi | exact Hj].
Qed.

Lemma laid_out_adjacent (rs : list common_Record) :
  forall offset i ri rj,
    laid_out_from offset rs ->
    nth_error rs i = Some ri -> nth_error rs (S i) = Some rj ->
    Start rj = Start ri + Length ri.
Proof.
  induction rs as [|r0 rs IH]; intros offset [|i] ri rj Hl Hi Hj; cbn in *;
    try discriminate.
  - injection Hi as <-. destruct Hl as (Hs & _ & Hl).
    destruct rs as [|r1 rs]; cbn in *; [discriminate|].
    injection Hj as <-. destruct Hl as (Hs1 & _). lia.
  - destruct Hl as (_ & _ & Hl). eapply IH; eauto.
Qed.

Lemma data_length_cons (page : NextPageResult) (r : DataReader) :
  data_length (page :: r)
  = match np_err page with
    | None => np_pageLen page + data_length r
    | Some _ => data_length r
    end.
Proof. reflexivity. Qed.

Lemma data_length_nonneg (r : DataReader) :
  pages_positive r -> 0 <= data_length r.
Proof.
  induction 1 as [|page r Hpage _ IH]; [cbn; lia|].
  rewrite data_length_cons.
  destruct (np_err page); [exact IH|]. specialize (Hpage eq_refl). lia.
Qed.

Section ReplayOffsets.
Context {BE : Backend} {O : OS} {C : Codec}.

Lemma one_object_no_error (v : VersionedEncoding) (page : NextPageResult) :
  one_object v page = true -> np_err page = None.
Proof. unfold one_object. destruct (np_err page); [discriminate|reflexivity]. Qed.

(** In a file shorter than 2^64 bytes whose pages are not empty, the walk
    lays the records out one after the other. *)
Lemma replayPages_laid_out (v : VersionedEncoding) (r : DataReader) :
  forall offset,
    pages_positive r -> 0 <= offset ->
    offset + data_length r < uint64_max ->
    laid_out_from offset (fst (replayPages v r [] offset)).
Proof.
  induction r as [|page r IH]; intros offset Hpos Hoff Hsize; [exact I|].
  rewrite replayPages_cons.
  destruct (one_object v page) eqn:Hone; [|exact I].
  pose proof (one_object_no_error v page Hone) as Herr.
  inversion Hpos as [|? ? Hpage Hpos']; subst.
  specialize (Hpage Herr).
  pose proof (data_length_nonneg r Hpos') as Hnn.
  rewrite data_length_cons, Herr in Hsize.
  rewrite replayPages_acc. cbn [fst app laid_out_from record_of Start Length].
  rewrite Z.mod_small by lia.
  repeat split; [exact Hpage|].
  apply IH; [exact Hpos' | lia | lia].
Qed.

Lemma data_length_app (r1 r2 : DataReader) :
  data_length (r1 ++ r2) = data_length r1 + data_length r2.
Proof.
  induction r1 as [|page r1 IH]; [reflexivity|].
  cbn [app]. rewrite !data_length_cons, IH.
  destruct (np_err page); lia.
Qed.

Lemma data_length_one_object (v : VersionedEncoding)
    (good : list NextPageResult) :
  Forall (fun page => one_object v page = true) good ->
  data_length good = page_lengths good.
Proof.
  induction 1 as [|page good Hpage _ IH]; [reflexivity|].
  rewrite data_length_cons, (one_object_no_error v page Hpage), IH.
  reflexivity.
Qed.

Lemma records_from_length (v : VersionedEncoding)
    (pages : list NextPageResult) :
  forall offset,
    List.length (records_from v pages offset) = List.length pages.
Proof.
  induction pages as [|page pages IH]; intro offset; cbn;
    [reflexivity | rewrite IH; reflexivity].
Qed.

(** In a run of one-object pages that fits below 2^64, the record of each
    page has the identifier decoded from the page, starts at the sum of the
    lengths of the pages before it, and has the page's length. *)
Lemma records_from_nth (v : VersionedEncoding) (good : list NextPageResult) :
  forall offset,
    Forall (fun page => 0 < np_pageLen page) good ->
    0 <= offset ->
    offset + page_lengths good < uint64_max ->
    forall i page,
      nth_error good i = Some page ->
      nth_error (records_from v good offset) i
      = Some (mkRecord (um_id (UnmarshalObjectFromReader v (np_buffer page)))
                (offset + page_lengths (firstn i good)) (np_pageLen page)).
Proof.
  unfold page_lengths.
  induction good as [|page0 good IH]; intros offset Hpos Hoff Hsize i page Hi;
    [destruct i; discriminate Hi|].
  inversion Hpos as [|? ? Hpage0 Hpos']; subst.
  assert (Hnn : 0 <= fold_right (fun p acc => np_pageLen p + acc) 0 good).
  { clear - Hpos'. induction Hpos' as [|p l Hp _ IHl]; cbn; lia. }
  cbn [fold_right] in Hsize.
  destruct i as [|i]; cbn [nth_error records_from firstn fold_right].
  - cbn in Hi. injection Hi as <-. unfold record_of.
    rewrite Z.add_0_r. reflexivity.
  - cbn in Hi. rewrite Z.mod_small by lia.
    rewrite (IH (offset + np_pageLen page0) Hpos' ltac:(lia) ltac:(lia)
               i page Hi).
    do 2 f_equal. lia.
Qed.

(** C9.  When the replay returns a block, its appender is the record
    appender of the sorted arrival-order records.  The sorted index is in
    ascending order of identifier and holds exactly the records of the
    walk.  In arrival order (the pages of a file shorter than 2^64 bytes,
    none of them empty) the start of each record is the sum of the lengths
    of the records before it, the byte range of a record ends at or before
    the start of every later one, starts strictly increase, and each record
    starts where the one before it ends.  The records are those of the
    pages: the walk took the leading one-object pages of the file, all of
    them when the walk met no failure, and the record of the i-th page has
    the identifier decoded from that page, starts at the sum of the lengths
    of the pages before it, and has the length of that page. *)
Theorem replay_index_invariant (name path : string) (w : World)
    (b : AppendBlock) (warning fatal : option error) (w' : World)
    (dataReader : DataReader) :
  newAppendBlockFromFile name path w = (Some b, warning, fatal, w') ->
  NewDataReader (encoding b) (readFile b) (meta_Encoding (meta b)) w'
  = Ok dataReader ->
  pages_positive dataReader ->
  data_length dataReader < uint64_max ->
  let arrival := fst (replayPages (encoding b) dataReader [] 0) in
  appender b = Some (NewRecordAppender (SortRecords arrival))
  /\ StronglySorted id_le (SortRecords arrival)
  /\ Permutation (SortRecords arrival) arrival
  /\ (forall i r, nth_error arrival i = Some r ->
                  Start r = sum_lengths (firstn i arrival))
  /\ (forall i j ri rj,
        (i < j)%nat ->
        nth_error arrival i = Some ri -> nth_error arrival j = Some rj ->
        Start ri + Length ri <= Start rj /\ Start ri < Start rj)
  /\ (forall i ri rj,
        nth_error arrival i = Some ri -> nth_error arrival (S i) = Some rj ->
        Start rj = Start ri + Length ri)
  /\ exists good rest,
       dataReader = good ++ rest
       /\ Forall (fun page => one_object (encoding b) page = true) good
       /\ (rest = []
           \/ exists bad rest',
                rest = bad :: rest' /\ one_object (encoding b) bad = false)
       /\ List.length arrival = List.length good
       /\ forall i page,
            nth_error good i = Some page ->
            nth_error arrival i
            = Some (mkRecord
                      (um_id (UnmarshalObjectFromReader (encoding b)
                                (np_buffer page)))
                      (page_lengths (firstn i good)) (np_pageLen page)).
Proof.
  intros Hreplay Hreader Hpos Hsize arrival.
  assert (Hlaid : laid_out_from 0 arrival).
  { apply replayPages_laid_out; [exact Hpos | lia | lia]. }
  assert (Hpages :
    exists good rest,
      dataReader = good ++ rest
      /\ Forall (fun page => one_object (encoding b) page = true) good
      /\ (rest = []
          \/ exists bad rest',
               rest = bad :: rest' /\ one_object (encoding b) bad = false)
      /\ List.length arrival = List.length good
      /\ forall i page,
           nth_error good i = Some page ->
           nth_error arrival i
           = Some (mkRecord
                     (um_id (UnmarshalObjectFromReader (encoding b)
                               (np_buffer page)))
                     (page_lengths (firstn i good)) (np_pageLen page))).
  { destruct (replayPages_split (encoding b) dataReader 0)
      as (good & rest & Hr & Hgood & Hfst & Hrest).
    exists good, rest. subst arrival. rewrite Hfst.
    split; [exact Hr|]. split; [exact Hgood|]. split.
    { destruct Hrest as [[-> _]|(bad & rest' & -> & Hbad & _)];
        [left; reflexivity | right; exists bad, rest'; split; auto]. }
    split; [apply records_from_length|].
    assert (Hposgood : Forall (fun page => 0 < np_pageLen page) good).
    { unfold pages_positive in Hpos. rewrite Hr in Hpos.
      apply Forall_app in Hpos as [Hpos _].
      rewrite Forall_forall in *. intros page Hin.
      apply Hpos; [exact Hin|].
      apply (one_object_no_error (encoding b)). apply Hgood. exact Hin. }
    assert (Hbound : page_lengths good < uint64_max).
    { rewrite Hr, data_length_app in Hsize.
      rewrite (data_length_one_object (encoding b) good Hgood) in Hsize.
      assert (0 <= data_length rest).
      { apply data_length_nonneg. unfold pages_positive in *.
        rewrite Hr in Hpos. apply Forall_app in Hpos as [_ Hpos].
        exact Hpos. }
      lia. }
    intros i page Hi.
    rewrite (records_from_nth (encoding b) good 0 Hposgood ltac:(lia)
               ltac:(lia) i page Hi).
    reflexivity. }
  split; [|split; [apply SortRecords_sorted|split; [apply SortRecords_perm|]]].
  - revert Hreplay Hreader. unfold newAppendBlockFromFile.
    destruct (parseFilename name)
      as [[[[[blockID tenantID] version] e] de]|err]; [|discriminate].
    destruct (FromVersion version) as [v|err]; [|discriminate].
    unfold file, fullFilename. cbn.
    destruct (os_OpenFile _ O_RDONLY perm_0644 w) as [[f|err] w1];
      [|discriminate].
    cbn. destruct (NewDataReader v (Some f) e w1) as [dr|err] eqn:Hdr;
      [|discriminate].
    destruct (replayPages v dr [] 0) as [records warn] eqn:Hwalk.
    intros Heq Hreader. injection Heq as <- <- <- <-.
    cbn in Hreader. rewrite Hdr in Hreader. injection Hreader as <-.
    subst arrival. cbn. rewrite Hwalk. reflexivity.
  - split; [|split].
    + intros i r Hi. rewrite (laid_out_prefix_sum _ _ _ _ Hlaid Hi). lia.
    + intros i j ri rj. apply laid_out_disjoint with (offset := 0).
      exact Hlaid.
    + split; [|exact Hpages].
      intros i ri rj. apply laid_out_adjacent with (offset := 0).
      exact Hlaid.
Qed.

End ReplayOffsets.

(** ** The theorems at the example data *)

(** The reference reader cuts the example files into the example pages. *)
Example readPages_file_two_objects :
  Sample.readPages (List.length Examples.file_two_objects)
    Examples.file_two_objects
  = [Examples.page_3; Examples.page_two_objects; Examples.page_1].
Proof. reflexivity. Qed.

Example readPages_file_whole :
  Sample.readPages (List.length Examples.file_whole) Examples.file_whole
  = [Examples.page_3; Examples.page_2; Examples.page_1].
Proof. reflexivity. Qed.

Example readPages_file_truncated :
  Sample.readPages (List.length Examples.file_truncated)
    Examples.file_truncated
  = [Examples.page_3; Examples.page_2; Sample.truncated].
Proof. reflexivity. Qed.

(** [newAppendBlock] makes the fresh example block. *)
Example newAppendBlock_fresh :
  newAppendBlock Examples.id1 "tenant" "wal" Sample.EncSnappy "v1"
    Examples.empty_world
  = (Ok Examples.fresh_block, Examples.fresh_world).
Proof. reflexivity. Qed.

(** [Clear] on the fresh block leaves the cleared block and removes the
    file. *)
Example Clear_fresh :
  Clear Examples.fresh_block Examples.fresh_world
  = Returns (None, Examples.cleared_block, Examples.cleared_world).
Proof. reflexivity. Qed.

(** C4, a witness: the second page of the example file holds two objects;
    the walk keeps the record of the first page only and reports nothing. *)
Lemma replay_second_object_no_warning_witness :
  replayPages (C := Sample.codec) Sample.v2Encoding
    ([Examples.page_3] ++ Examples.page_two_objects :: [Examples.page_1])
    [] 0
  = ([mkRecord [x03] 0 15], None).
Proof.
  apply (replay_second_object_no_warning (C := Sample.codec)
           Sample.v2Encoding [Examples.page_3] Examples.page_two_objects
           [Examples.page_1]).
  - constructor; [reflexivity | constructor].
  - reflexivity.
  - reflexivity.
  - reflexivity.
Defined.

(** C1 (the code at the failing input).  The data file holds a whole page,
    a page with two objects, and another whole page.  The replay succeeds
    with a block whose index has the record of the first page only: the
    walk stopped at the second page and left it out, and there is no fatal
    error.  But the warning is nil: the failure is not reported. *)
Theorem replay_two_object_page_silent :
  um_err (Sample.UnmarshalObjectFromReader
            (um_reader (Sample.UnmarshalObjectFromReader
                          (np_buffer Examples.page_two_objects))))
  = None
  /\ exists b w',
       newAppendBlockFromFile Examples.name_extended "wal"
         (Examples.world_with Examples.file_two_objects)
       = (Some b, None, None, w')
       /\ appender b = Some (Sample.recordAppender [mkRecord [x03] 0 15]).
Proof.
  split; [reflexivity|]. do 2 eexists. split; reflexivity.
Qed.

(** A file cut in the middle of its third page: the two whole pages are
    kept, the cut is reported as a warning, and there is no fatal error. *)
Example replay_truncated_file :
  exists b w',
    newAppendBlockFromFile Examples.name_extended "wal"
      (Examples.world_with Examples.file_truncated)
    = (Some b, Some (Errorf "unexpected EOF"), None, w')
    /\ appender b
       = Some (Sample.recordAppender
                 [mkRecord [x02] 15 14; mkRecord [x03] 0 15]).
Proof. do 2 eexists. split; reflexivity. Qed.

(** C9, a witness: the replay of the whole example file. *)
Lemma replay_index_invariant_witness :
  let arrival :=
    fst (replayPages (C := Sample.codec) Sample.v2Encoding
           [Examples.page_3; Examples.page_2; Examples.page_1] [] 0) in
  appender Examples.replayed_block
  = Some (NewRecordAppender (SortRecords arrival))
  /\ StronglySorted id_le (SortRecords arrival)
  /\ Permutation (SortRecords arrival) arrival
  /\ (forall i r, nth_error arrival i = Some r ->
                  Start r = sum_lengths (firstn i arrival))
  /\ (forall i j ri rj,
        (i < j)%nat ->
        nth_error arrival i = Some ri -> nth_error arrival j = Some rj ->
        Start ri + Length ri <= Start rj /\ Start ri < Start rj)
  /\ (forall i ri rj,
        nth_error arrival i = Some ri -> nth_error arrival (S i) = Some rj ->
        Start rj = Start ri + Length ri)
  /\ exists good rest,
       [Examples.page_3; Examples.page_2; Examples.page_1] = good ++ rest
       /\ Forall (fun page =>
                    one_object (C := Sample.codec) Sample.v2Encoding page
                    = true) good
       /\ (rest = []
           \/ exists bad rest',
                rest = bad :: rest'
                /\ one_object (C := Sample.codec) Sample.v2Encoding bad
                   = false)
       /\ List.length arrival = List.length good
       /\ forall i page,
            nth_error good i = Some page ->
            nth_error arrival i
            = Some (mkRecord
                      (um_id (Sample.UnmarshalObjectFromReader
                                (np_buffer page)))
                      (page_lengths (firstn i good)) (np_pageLen page)).
Proof.
  apply (replay_index_invariant (C := Sample.codec) Examples.name_extended
           "wal" (Examples.world_with Examples.file_whole)
           Examples.replayed_block None None Examples.replayed_world
           [Examples.page_3; Examples.page_2; Examples.page_1]).
  - reflexivity.
  - reflexivity.
  - repeat constructor.
  - reflexivity.
Defined.

(** C5, a witness: a write that succeeds counts one object; a write on a
    failing disk returns the error and leaves the meta as it was. *)
Lemma Write_bookkeeping_witness :
  (exists a' w',
     Write Examples.fresh_block [x01] [x02] Examples.fresh_world
     = Returns (None, a', w')
     /\ TotalObjects (meta a') = 1)
  /\ (exists a' w',
        Write Examples.fresh_block [x01] [x02] Examples.failing_world
        = Returns (Some (Errorf "write: input/output error"), a', w')
        /\ meta a' = meta Examples.fresh_block).
Proof.
  split.
  - destruct (Write_bookkeeping Examples.fresh_block _ [x01] [x02]
                Examples.fresh_world _ _ _ eq_refl eq_refl)
      as (a' & HW & _ & _ & Hok).
    exists a'. eexists. split; [exact HW|].
    rewrite (Hok eq_refl). reflexivity.
  - destruct (Write_bookkeeping Examples.fresh_block _ [x01] [x02]
                Examples.failing_world _ _ _ eq_refl eq_refl)
      as (a' & HW & _ & Hfail & _).
    exists a'. eexists. split; [exact HW|].
    exact (Hfail _ eq_refl).
Defined.

(** C7, a witness: on a disk where closing and flushing fail, [Clear]
    still removes the file and returns nil. *)
Lemma Clear_surfaces_only_removal_witness :
  fst (File_Close Examples.path_extended Examples.failing_world) <> None
  /\ fst (fst (Complete (Sample.appender Examples.path_extended [] 0)
                 Examples.failing_world)) <> None
  /\ exists a',
       Clear Examples.fresh_block Examples.failing_world
       = Returns (None, a',
                  Sample.mkWorld [] 1 true true true)
       /\ readFile a' = None
       /\ appendFile a' = None.
Proof.
  split; [discriminate|]. split; [discriminate|].
  destruct (Clear_surfaces_only_removal Examples.fresh_block
              (Sample.appender Examples.path_extended [] 0)
              Examples.failing_world eq_refl)
    as (a' & HC & Hr & Ha).
  exists a'. split; [exact HC | split; assumption].
Defined.

(** C6, a witness: the file is there, the index is empty. *)
Lemma Find_absent_witness :
  exists a' w',
    Find Examples.fresh_block [x09] Examples.concat_combiner
      Examples.fresh_world
    = Returns ([], None, a', w').
Proof.
  do 2 eexists.
  apply (Find_absent Examples.fresh_block
           (Sample.appender Examples.path_extended [] 0) [x09]
           Examples.concat_combiner Examples.fresh_world
           (Some Examples.path_extended));
    reflexivity.
Defined.

(** C6, as stated, fails: the block has been cleared, so its file is gone
    and its guard has not fired; the index has no record for the
    identifier, and [Find] returns the error of the open. *)
Lemma Find_absent_counterexample :
  Clear Examples.fresh_block Examples.fresh_world
  = Returns (None, Examples.cleared_block, Examples.cleared_world)
  /\ appender Examples.cleared_block
     = Some (Sample.appender Examples.path_extended [] 0)
  /\ RecordsForID (Sample.appender Examples.path_extended [] 0) [x09] = []
  /\ exists a' w',
       Find Examples.cleared_block [x09] Examples.concat_combiner
         Examples.cleared_world
       = Returns ([], Some Examples.open_error, a', w').
Proof.
  repeat split. do 2 eexists. reflexivity.
Qed.

(** C10, a witness: the cleared block, whose file is gone. *)
Lemma file_open_failure_not_cached_witness :
  exists a1,
    file Examples.cleared_block Examples.cleared_world
    = (None, Some Examples.open_error, a1,
       Sample.mkWorld [] 2 false false false)
    /\ forall (cs : list call) (w2 : World),
         exists a2 w3,
           perform_all cs a1 w2 = Returns (a2, w3)
           /\ forall w4, file a2 w4 = (None, None, a2, w4).
Proof.
  apply (file_open_failure_not_cached Examples.cleared_block
           (Sample.appender Examples.path_extended [] 0)
           Examples.cleared_world Examples.open_error
           (Sample.mkWorld [] 2 false false false));
    reflexivity.
Defined.

(** * Further properties of the code *)

(** ** [parseFilename] *)

Lemma strings_Split_length (s : string) (sep : ascii) :
  List.length (strings_Split s sep) = S (count_byte s sep).
Proof.
  induction s as [|c s IH]; cbn; [reflexivity|].
  destruct (Ascii.eqb c sep); cbn; [rewrite IH; reflexivity|].
  destruct (strings_Split s sep) as [|seg segs]; cbn in *; [discriminate|].
  exact IH.
Qed.

Lemma strings_Split_segments (s : string) (sep : ascii) :
  Forall (fun seg => strings_ContainsRune seg sep = false)
    (strings_Split s sep).
Proof.
  induction s as [|c s IH]; cbn; [repeat constructor|].
  destruct (Ascii.eqb c sep) eqn:Hc; [constructor; [reflexivity|exact IH]|].
  destruct (strings_Split s sep) as [|seg segs].
  - constructor; [cbn; rewrite Hc; reflexivity | constructor].
  - inversion IH; subst. constructor; [cbn; rewrite Hc; assumption|assumption].
Qed.

Lemma strings_Join_cons (seg seg' : string) (segs : list string)
    (sep : ascii) :
  strings_Join (seg :: seg' :: segs) sep
  = (seg ++ String sep (strings_Join (seg' :: segs) sep))%string.
Proof. reflexivity. Qed.

Lemma strings_Join_Split (s : string) (sep : ascii) :
  strings_Join (strings_Split s sep) sep = s.
Proof.
  induction s as [|c s IH]; cbn [strings_Split]; [reflexivity|].
  pose proof (strings_Split_length s sep) as Hl.
  destruct (strings_Split s sep) as [|seg segs]; [discriminate Hl|].
  destruct (Ascii.eqb c sep) eqn:Hc.
  - apply Ascii.eqb_eq in Hc. subst c.
    rewrite strings_Join_cons, IH. reflexivity.
  - destruct segs as [|seg' segs].
    + cbn in IH |- *. rewrite IH. reflexivity.
    + rewrite strings_Join_cons in IH |- *. rewrite <- IH. reflexivity.
Qed.

Section ParseFilename.
Context {BE : Backend}.

(** X1.  A name in which the number of [:] is not 1, 3 or 4 is rejected
    for its number of segments, whatever its segments are. *)
Theorem parseFilename_segment_count (name : string) :
  count_byte name colon <> 1%nat ->
  count_byte name colon <> 3%nat ->
  count_byte name colon <> 4%nat ->
  parseFilename name
  = Fail (Errorf ("unable to parse " ++ name
                    ++ ". unexpected number of segments")).
Proof.
  intros H1 H3 H4. unfold parseFilename.
  rewrite strings_Split_length.
  destruct (count_byte name colon) as [|[|[|[|[|n]]]]]; cbn;
    try reflexivity; congruence.
Qed.

(** What a successful parse tells about the segments of the name. *)
Lemma parseFilename_Ok_inv (name : string) (blockID : UUID)
    (tenantID version : string) (e : Encoding) (dataEncoding : string) :
  parseFilename name = Ok (blockID, tenantID, version, e, dataEncoding) ->
  exists s0,
    uuid_Parse s0 = Ok blockID
    /\ tenantID <> EmptyString /\ version <> EmptyString
    /\ (strings_Split name colon = [s0; tenantID]
        /\ version = "v0" /\ dataEncoding = EmptyString
        /\ ParseEncoding (Encoding_String EncNone) = Ok e
        \/ exists s3,
             ParseEncoding s3 = Ok e
             /\ (strings_Split name colon = [s0; tenantID; version; s3]
                 /\ dataEncoding = EmptyString
                 \/ strings_Split name colon
                    = [s0; tenantID; version; s3; dataEncoding])).
Proof.
  unfold parseFilename.
  destruct (strings_Split name colon) as [|s0 [|s1 [|s2 [|s3 [|s4 [|s5 l]]]]]];
    cbn; try (intro H; discriminate H).
  - destruct (uuid_Parse s0) as [id|err] eqn:Hid; [|intro H; discriminate H].
    destruct (ParseEncoding (Encoding_String EncNone)) as [enc|err] eqn:Henc;
      [|intro H; discriminate H].
    destruct (is_empty s1) eqn:Ht; cbn; intro H; [discriminate H|].
    injection H as <- <- <- <- <-. apply is_empty_false_iff in Ht.
    exists s0. repeat split; try assumption; try discriminate.
    left. repeat split.
  - destruct (uuid_Parse s0) as [id|err] eqn:Hid; [|intro H; discriminate H].
    destruct (ParseEncoding s3) as [enc|err] eqn:Henc;
      [|intro H; discriminate H].
    destruct (is_empty s1) eqn:Ht; cbn; [intro H; discriminate H|].
    destruct (is_empty s2) eqn:Hv; intro H; [discriminate H|].
    injection H as <- <- <- <- <-.
    apply is_empty_false_iff in Ht. apply is_empty_false_iff in Hv.
    exists s0. repeat split; try assumption.
    right. exists s3. split; [exact Henc|]. left. split; reflexivity.
  - destruct (uuid_Parse s0) as [id|err] eqn:Hid; [|intro H; discriminate H].
    destruct (ParseEncoding s3) as [enc|err] eqn:Henc;
      [|intro H; discriminate H].
    destruct (is_empty s1) eqn:Ht; cbn; [intro H; discriminate H|].
    destruct (is_empty s2) eqn:Hv; intro H; [discriminate H|].
    injection H as <- <- <- <- <-.
    apply is_empty_false_iff in Ht. apply is_empty_false_iff in Hv.
    exists s0. repeat split; try assumption.
    right. exists s3. split; [exact Henc|]. right. reflexivity.
Qed.

Ltac segments_colon_free name :=
  let H := fresh "Hseg" in
  pose proof (strings_Split_segments name colon) as H;
  match goal with
  | Hs : strings_Split name colon = _ |- _ => rewrite Hs in H
  end;
  repeat match goal with
         | H : Forall _ (_ :: _) |- _ => inversion H; subst; clear H
         end.

(** X2.  Whatever [parseFilename] accepts: the tenant id and the version
    are not empty, none of tenant id, version and data-encoding holds a
    [:], the block id is what [uuid.Parse] makes of the first segment, and
    a name with a single [:] gives the version ["v0"], the encoding that
    [EncNone]'s token parses to, and an empty data-encoding. *)
Theorem parseFilename_accepts (name : string) (blockID : UUID)
    (tenantID version : string) (e : Encoding) (dataEncoding : string) :
  parseFilename name = Ok (blockID, tenantID, version, e, dataEncoding) ->
  tenantID <> EmptyString
  /\ version <> EmptyString
  /\ strings_ContainsRune tenantID colon = false
  /\ strings_ContainsRune version colon = false
  /\ strings_ContainsRune dataEncoding colon = false
  /\ uuid_Parse (segment (strings_Split name colon) 0) = Ok blockID
  /\ (count_byte name colon = 1%nat ->
      version = "v0" /\ dataEncoding = EmptyString
      /\ ParseEncoding (Encoding_String EncNone) = Ok e).
Proof.
  intro Hparse.
  destruct (parseFilename_Ok_inv _ _ _ _ _ _ Hparse)
    as (s0 & Hid & Ht & Hv & Hcases).
  pose proof (strings_Split_length name colon) as Hlen.
  destruct Hcases as [(Hs & -> & -> & He)|(s3 & He & [(Hs & ->)|Hs])];
    segments_colon_free name; rewrite Hs in Hlen |- *; cbn in Hlen;
    injection Hlen as Hlen; rewrite <- Hlen;
    repeat split; try assumption; try reflexivity; try discriminate.
Qed.

(** X3.  Rebuilding the name from what [parseFilename] returned gives the
    name back when the first segment is the canonical form of the block id
    and, for a name of more than two segments, the fourth segment is the
    token of the encoding, the version is not ["v0"], and a fifth segment
    is not empty.  (The replay opens the rebuilt name, not the one it was
    given.) *)
Theorem filename_of_parsed (name : string) (blockID : UUID)
    (tenantID version : string) (e : Encoding) (dataEncoding : string) :
  parseFilename name = Ok (blockID, tenantID, version, e, dataEncoding) ->
  uuid_String blockID = segment (strings_Split name colon) 0 ->
  (count_byte name colon <> 1%nat ->
   Encoding_String e = segment (strings_Split name colon) 3
   /\ version <> "v0") ->
  (count_byte name colon = 4%nat -> dataEncoding <> EmptyString) ->
  filename (NewBlockMeta tenantID blockID version e dataEncoding) = name.
Proof.
  intros Hparse.
  destruct (parseFilename_Ok_inv _ _ _ _ _ _ Hparse)
    as (s0 & Hid & Ht & Hv & Hcases).
  pose proof (strings_Split_length name colon) as Hlen.
  pose proof (strings_Join_Split name colon) as Hjoin.
  destruct Hcases as [(Hs & -> & -> & He)|(s3 & He & [(Hs & ->)|Hs])];
    rewrite Hs in Hlen, Hjoin |- *; cbn in Hlen; injection Hlen as Hlen;
    rewrite <- Hlen; cbn [segment nth]; intros Hu Henc Hde;
    unfold filename; cbn [Version BlockID TenantID DataEncoding meta_Encoding
                            NewBlockMeta].
  - cbn. rewrite Hu, <- Hjoin. reflexivity.
  - destruct Henc as [Henc Hv0]; [discriminate|].
    apply String.eqb_neq in Hv0. rewrite Hv0, Hu, Henc, <- Hjoin.
    reflexivity.
  - destruct Henc as [Henc Hv0]; [discriminate|].
    apply String.eqb_neq in Hv0. rewrite Hv0, Hu, Henc.
    specialize (Hde eq_refl). apply is_empty_false_iff in Hde.
    rewrite Hde, <- Hjoin. reflexivity.
Qed.

End ParseFilename.

(** X1, a witness: a name with no [:] at all. *)
Lemma parseFilename_segment_count_witness :
  parseFilename (BE := Sample.backend) "lost+found"
  = Fail (Errorf "unable to parse lost+found. unexpected number of segments").
Proof.
  apply (parseFilename_segment_count (BE := Sample.backend) "lost+found");
    intro H; discriminate H.
Defined.

(** X2, a witness: the name of the extended example block. *)
Lemma parseFilename_accepts_witness :
  "tenant" <> EmptyString
  /\ "v2" <> EmptyString
  /\ strings_ContainsRune "tenant" colon = false
  /\ strings_ContainsRune "v2" colon = false
  /\ strings_ContainsRune "v1" colon = false
  /\ uuid_Parse (segment (strings_Split Examples.name_literal colon) 0)
     = Ok Examples.id1
  /\ (count_byte Examples.name_literal colon = 1%nat ->
      "v2" = "v0" /\ "v1" = EmptyString
      /\ ParseEncoding (Encoding_String EncNone) = Ok Sample.EncSnappy).
Proof.
  apply (parseFilename_accepts (BE := Sample.backend) Examples.name_literal
           Examples.id1 "tenant" "v2" Sample.EncSnappy "v1").
  reflexivity.
Defined.

(** X3, a witness: the name of the extended example block. *)
Lemma filename_of_parsed_witness :
  filename (NewBlockMeta "tenant" Examples.id1 "v2" Sample.EncSnappy "v1")
  = Examples.name_literal.
Proof.
  apply (filename_of_parsed (BE := Sample.backend) Examples.name_literal
           Examples.id1 "tenant" "v2" Sample.EncSnappy "v1").
  - reflexivity.
  - reflexivity.
  - intros _. split; [reflexivity | discriminate].
  - intros _. discriminate.
Defined.

(** ** [newAppendBlockFromFile]: what the replay returns *)

Section ReplayResult.
Context {BE : Backend} {O : OS} {C : Codec}.

(** The block a replay returns, read off its construction. *)
Lemma newAppendBlockFromFile_inv (name path : string) (w : World)
    (b : AppendBlock) (warning fatal : option error) (w' : World) :
  newAppendBlockFromFile name path w = (Some b, warning, fatal, w') ->
  exists blockID tenantID version e dataEncoding f dataReader,
    parseFilename name = Ok (blockID, tenantID, version, e, dataEncoding)
    /\ FromVersion version = Ok (encoding b)
    /\ os_OpenFile
         (filepath_Join path
            (filename
               (NewBlockMeta tenantID blockID version e dataEncoding)))
         O_RDONLY perm_0644 w = (Ok f, w')
    /\ NewDataReader (encoding b) (Some f) e w' = Ok dataReader
    /\ fatal = None
    /\ warning = snd (replayPages (encoding b) dataReader [] 0)
    /\ b = mkAppendBlock
             (mkBlockMeta version blockID [] [] tenantID
                (Appender_Length
                   (NewRecordAppender
                      (SortRecords
                         (fst (replayPages (encoding b) dataReader [] 0)))))
                0 e dataEncoding)
             (encoding b) None
             (Some (NewRecordAppender
                      (SortRecords
                         (fst (replayPages (encoding b) dataReader [] 0)))))
             path (Some f) true.
Proof.
  unfold newAppendBlockFromFile.
  destruct (parseFilename name)
    as [[[[[blockID tenantID] version] e] de]|err] eqn:Hparse;
    [|discriminate].
  destruct (FromVersion version) as [v|err] eqn:Hv; [|discriminate].
  unfold file, fullFilename. cbn.
  destruct (os_OpenFile _ O_RDONLY perm_0644 w) as [[f|err] w1] eqn:Hopen;
    [|discriminate].
  cbn. destruct (NewDataReader v (Some f) e w1) as [dr|err] eqn:Hdr;
    [|discriminate].
  destruct (replayPages v dr [] 0) as [records warn] eqn:Hwalk.
  intro Heq. injection Heq as <- <- <- <-.
  exists blockID, tenantID, version, e, de, f, dr. cbn.
  rewrite Hwalk. repeat split; try reflexivity; assumption.
Qed.

(** X5.  The identity of a replayed block is the one written in the name
    of its file: tenant id, block id, version, encoding and data-encoding
    are what [parseFilename] returns, and the codec is the one
    [FromVersion] gives for that version. *)
Theorem replay_block_identity (name path : string) (w : World)
    (b : AppendBlock) (warning fatal : option error) (w' : World) :
  newAppendBlockFromFile name path w = (Some b, warning, fatal, w') ->
  parseFilename name
  = Ok (BlockID (meta b), TenantID (meta b), Version (meta b),
        meta_Encoding (meta b), DataEncoding (meta b))
  /\ FromVersion (Version (meta b)) = Ok (encoding b)
  /\ filepath b = path.
Proof.
  intro H.
  destruct (newAppendBlockFromFile_inv _ _ _ _ _ _ _ H)
    as (blockID & tenantID & version & e & de & f & dr
        & Hparse & Hv & _ & _ & _ & _ & Hb).
  rewrite Hb in *. cbn in *. repeat split; assumption.
Qed.

End ReplayResult.

(** ** [newAppendBlockFromFile]: the walk *)

Section ReplayWalkMore.
Context {BE : Backend} {O : OS} {C : Codec}.

Lemma fails_with_not_one_object (v : VersionedEncoding)
    (page : NextPageResult) (err : error) :
  fails_with v page err -> one_object v page = false.
Proof.
  unfold fails_with, one_object.
  intros [[Hp _]|[[Hp Hf]|(Hp & Hf & Hs & Hne)]]; rewrite Hp;
    [reflexivity | rewrite Hf; reflexivity |].
  rewrite Hf, Hs. destruct err; [congruence | reflexivity | reflexivity].
Qed.

Lemma fails_with_page_failure (v : VersionedEncoding)
    (page : NextPageResult) (err : error) :
  fails_with v page err -> page_failure v page = Some err.
Proof.
  intro H. apply page_failure_reported.
  - exact (fails_with_not_one_object v page err H).
  - destruct H as [H|[H|(Hp & Hf & Hs & _)]]; auto.
Qed.

Lemma page_failure_fails_with (v : VersionedEncoding)
    (page : NextPageResult) (err : error) :
  one_object v page = false -> page_failure v page = Some err ->
  fails_with v page err.
Proof.
  unfold one_object, page_failure, fails_with.
  destruct (np_err page) as [e|] eqn:Hp.
  - intros _. destruct e; cbn; try discriminate;
      intro H; injection H as <-; left; split; congruence.
  - cbn.
    destruct (um_err (UnmarshalObjectFromReader v (np_buffer page)))
      as [e|] eqn:Hf.
    + intros _ H. injection H as <-. right. left. split; reflexivity.
    + intros Hnot Hs. right. right. repeat split; try assumption.
      intros ->. rewrite Hs in Hnot. discriminate Hnot.
Qed.

(** X6.  The walk takes exactly the leading one-object pages: the pages
    split into a run of one-object pages, each of which gives one record in
    file order, and the rest; either there is no rest and no warning, or
    the rest starts with a page that is not a one-object page, which gives
    no record and decides the warning, and nothing after it is read. *)
Theorem replay_walk_decomposition (v : VersionedEncoding) (r : DataReader) :
  forall offset,
    exists good rest,
      r = good ++ rest
      /\ Forall (fun page => one_object v page = true) good
      /\ fst (replayPages v r [] offset) = records_from v good offset
      /\ (rest = [] /\ snd (replayPages v r [] offset) = None
          \/ exists bad rest',
               rest = bad :: rest' /\ one_object v bad = false
               /\ snd (replayPages v r [] offset) = page_failure v bad).
Proof. exact (replayPages_split v r). Qed.

(** X7.  Every warning is the error of a page: when the walk ends with
    the warning [err], the pages are a run of one-object pages followed by
    a page that fails with [err]. *)
Theorem replay_warning_origin (v : VersionedEncoding) (r : DataReader)
    (err : error) :
  snd (replayPages v r [] 0) = Some err ->
  exists good bad rest,
    r = good ++ bad :: rest
    /\ Forall (fun page => one_object v page = true) good
    /\ fails_with v bad err
    /\ fst (replayPages v r [] 0) = records_from v good 0.
Proof.
  intro Hwarn.
  destruct (replayPages_split v r 0)
    as (good & rest & Hr & Hgood & Hfst & [[_ Hnone]|Hbad]).
  - rewrite Hnone in Hwarn. discriminate Hwarn.
  - destruct Hbad as (bad & rest' & -> & Hone & Hsnd).
    exists good, bad, rest'. repeat split; try assumption.
    apply page_failure_fails_with; [exact Hone|]. congruence.
Qed.

(** X8.  A page that fails with an error stops the replay with that error
    as the warning, never as a fatal error; the block is returned and its
    index is the sorted records of the pages before the failing one. *)
Theorem replay_reports_failed_page (name path : string) (w : World)
    (b : AppendBlock) (warning fatal : option error) (w' : World)
    (good : list NextPageResult) (bad : NextPageResult)
    (rest : list NextPageResult) (err : error) :
  newAppendBlockFromFile name path w = (Some b, warning, fatal, w') ->
  NewDataReader (encoding b) (readFile b) (meta_Encoding (meta b)) w'
  = Ok (good ++ bad :: rest) ->
  Forall (fun page => one_object (encoding b) page = true) good ->
  fails_with (encoding b) bad err ->
  warning = Some err
  /\ fatal = None
  /\ appender b
     = Some (NewRecordAppender
               (SortRecords (records_from (encoding b) good 0))).
Proof.
  intros H Hreader Hgood Hbad.
  destruct (newAppendBlockFromFile_inv _ _ _ _ _ _ _ H)
    as (blockID & tenantID & version & e & de & f & dr
        & _ & _ & _ & Hdr & Hfatal & Hwarn & Hb).
  assert (Hsame : dr = good ++ bad :: rest).
  { rewrite Hb in Hreader. cbn in Hreader. rewrite Hb in Hdr. cbn in Hdr.
    rewrite Hdr in Hreader. injection Hreader as ->. reflexivity. }
  subst dr.
  pose proof (replayPages_stops (encoding b) good bad rest Hgood
                (fails_with_not_one_object _ _ _ Hbad)) as Hwalk.
  rewrite Hwalk in Hwarn, Hb. cbn [fst snd] in Hwarn, Hb.
  rewrite (fails_with_page_failure _ _ _ Hbad) in Hwarn.
  repeat split; try assumption.
  rewrite Hb at 1. reflexivity.
Qed.

(** X9.  A file of one-object pages only is replayed to its end: no
    warning, no fatal error, and the index is the sorted records of all
    the pages. *)
Theorem replay_whole_file (name path : string) (w : World)
    (b : AppendBlock) (warning fatal : option error) (w' : World)
    (pages : list NextPageResult) :
  newAppendBlockFromFile name path w = (Some b, warning, fatal, w') ->
  NewDataReader (encoding b) (readFile b) (meta_Encoding (meta b)) w'
  = Ok pages ->
  Forall (fun page => one_object (encoding b) page = true) pages ->
  warning = None
  /\ fatal = None
  /\ appender b
     = Some (NewRecordAppender
               (SortRecords (records_from (encoding b) pages 0)))
  /\ List.length (records_from (encoding b) pages 0) = List.length pages.
Proof.
  intros H Hreader Hgood.
  destruct (newAppendBlockFromFile_inv _ _ _ _ _ _ _ H)
    as (blockID & tenantID & version & e & de & f & dr
        & _ & _ & _ & Hdr & Hfatal & Hwarn & Hb).
  assert (Hsame : dr = pages).
  { rewrite Hb in Hreader. cbn in Hreader. rewrite Hb in Hdr. cbn in Hdr.
    rewrite Hdr in Hreader. injection Hreader as ->. reflexivity. }
  subst dr.
  pose proof (replayPages_complete (encoding b) pages Hgood) as Hwalk.
  rewrite Hwalk in Hwarn, Hb. cbn [fst snd] in Hwarn, Hb.
  repeat split; try assumption.
  - rewrite Hb at 1. reflexivity.
  - clear. generalize 0. induction pages as [|p ps IH]; intro off; cbn;
      [reflexivity | rewrite IH; reflexivity].
Qed.

End ReplayWalkMore.

(** X5, a witness: the replay of the whole example file. *)
Lemma replay_block_identity_witness :
  parseFilename Examples.name_extended
  = Ok (Examples.id1, "tenant", "v2", Sample.EncSnappy, "v1")
  /\ FromVersion "v2" = Ok Sample.v2Encoding
  /\ filepath Examples.replayed_block = "wal".
Proof.
  apply (replay_block_identity (C := Sample.codec)
           Examples.name_extended "wal"
           (Examples.world_with Examples.file_whole)
           Examples.replayed_block None None Examples.replayed_world).
  reflexivity.
Defined.

(** X7, a witness: the pages of the truncated example file. *)
Lemma replay_warning_origin_witness :
  exists good bad rest,
    [Examples.page_3; Examples.page_2; Sample.truncated]
    = good ++ bad :: rest
    /\ Forall (fun page =>
                 one_object (C := Sample.codec) Sample.v2Encoding page = true)
         good
    /\ fails_with (C := Sample.codec) Sample.v2Encoding bad
         (Errorf "unexpected EOF")
    /\ fst (replayPages (C := Sample.codec) Sample.v2Encoding
              [Examples.page_3; Examples.page_2; Sample.truncated] [] 0)
       = records_from (C := Sample.codec) Sample.v2Encoding good 0.
Proof.
  apply (replay_warning_origin (C := Sample.codec) Sample.v2Encoding
           [Examples.page_3; Examples.page_2; Sample.truncated]
           (Errorf "unexpected EOF")).
  reflexivity.
Defined.

(** X8, a witness: the replay of the truncated example file. *)
Lemma replay_reports_failed_page_witness :
  Some (Errorf "unexpected EOF") = Some (Errorf "unexpected EOF")
  /\ @None error = None
  /\ appender Examples.truncated_block
     = Some (NewRecordAppender
               (SortRecords
                  (records_from (C := Sample.codec) Sample.v2Encoding
                     [Examples.page_3; Examples.page_2] 0))).
Proof.
  apply (replay_reports_failed_page (C := Sample.codec)
           Examples.name_extended "wal"
           (Examples.world_with Examples.file_truncated)
           Examples.truncated_block (Some (Errorf "unexpected EOF")) None
           Examples.truncated_world
           [Examples.page_3; Examples.page_2] Sample.truncated []).
  - reflexivity.
  - reflexivity.
  - repeat constructor.
  - left. split; [reflexivity | discriminate].
Defined.

(** X9, a witness: the replay of the whole example file. *)
Lemma replay_whole_file_witness :
  @None error = None
  /\ @None error = None
  /\ appender Examples.replayed_block
     = Some (NewRecordAppender
               (SortRecords
                  (records_from (C := Sample.codec) Sample.v2Encoding
                     [Examples.page_3; Examples.page_2; Examples.page_1] 0)))
  /\ List.length
       (records_from (C := Sample.codec) Sample.v2Encoding
          [Examples.page_3; Examples.page_2; Examples.page_1] 0)
     = 3%nat.
Proof.
  apply (replay_whole_file (C := Sample.codec)
           Examples.name_extended "wal"
           (Examples.world_with Examples.file_whole)
           Examples.replayed_block None None Examples.replayed_world
           [Examples.page_3; Examples.page_2; Examples.page_1]).
  - reflexivity.
  - reflexivity.
  - repeat constructor.
Defined.

(** ** [file], [GetIterator] and [Clear] together *)

Section Handles.
Context {BE : Backend} {O : OS} {C : Codec}.

Ltac break_innermost :=
  match goal with
  | |- context [match ?x with _ => _ end] =>
      lazymatch x with
      | context [match _ with _ => _ end] => fail
      | _ => destruct x
      end
  end.

Lemma file_reading (f : File) (a : AppendBlock) (w : World) :
  reading f a -> file a w = (Some f, None, a, w).
Proof.
  intros [Honce Hread]. unfold file. rewrite Honce, Hread. reflexivity.
Qed.

Lemma file_opened (a : AppendBlock) (w : World) (f : File)
    (a1 : AppendBlock) (w1 : World) :
  file a w = (Some f, None, a1, w1) -> reading f a1.
Proof.
  unfold file, reading. destruct a as [m v af apo fp rf o]; cbn.
  destruct o; cbn.
  - intro H. injection H as -> <- <-. split; reflexivity.
  - destruct rf as [f0|].
    + intro H. injection H as <- <- <-. split; reflexivity.
    + unfold fullFilename. cbn.
      destruct (os_OpenFile _ O_RDONLY perm_0644 w) as [[f0|err] w'];
        intro H; [|discriminate H].
      injection H as <- <- <-. split; reflexivity.
Qed.

(** Every call but [Clear] keeps the read handle and the appender. *)
Lemma perform_keeps_reading (f : File) (c : call) (a : AppendBlock)
    (w : World) :
  is_Clear c = false ->
  reading f a -> (exists ap, appender a = Some ap) ->
  exists a' w',
    perform c a w = Returns (a', w')
    /\ reading f a' /\ exists ap', appender a' = Some ap'.
Proof.
  intros Hc [Honce Hread] [ap Hap].
  destruct a as [m v af apo fp rf o]; cbn in Honce, Hread, Hap; subst.
  destruct c as [id b|id combiner|combiner| | |g]; cbn;
    [| | |discriminate Hc| |].
  - unfold Write; cbn. destruct (Append ap id b w) as [[[e|] ap'] w'];
      cbn; do 2 eexists; (split; [reflexivity|]);
      (split; [split; reflexivity | eexists; reflexivity]).
  - unfold Find, file; cbn.
    repeat break_innermost; cbn;
      do 2 eexists; (split; [reflexivity|]);
      (split; [split; reflexivity | eexists; reflexivity]).
  - unfold GetIterator, file; cbn.
    destruct af as [af|]; cbn.
    + destruct (File_Close af w) as [[e|] w']; cbn;
        repeat break_innermost; cbn;
        do 2 eexists; (split; [reflexivity|]);
        (split; [split; reflexivity | eexists; reflexivity]).
    + repeat break_innermost; cbn;
        do 2 eexists; (split; [reflexivity|]);
        (split; [split; reflexivity | eexists; reflexivity]).
  - unfold file; cbn. do 2 eexists. split; [reflexivity|].
    split; [split; reflexivity | eexists; reflexivity].
  - do 2 eexists. split; [reflexivity|].
    split; [split; reflexivity | eexists; reflexivity].
Qed.

Lemma perform_all_keeps_reading (f : File) (cs : list call) :
  forall (a : AppendBlock) (w : World),
    without_Clear cs ->
    reading f a -> (exists ap, appender a = Some ap) ->
    exists a' w',
      perform_all cs a w = Returns (a', w') /\ reading f a'.
Proof.
  induction cs as [|c cs IH]; intros a w Hcs Ha Hap; cbn.
  - exists a, w. split; [reflexivity | exact Ha].
  - inversion Hcs as [|? ? Hc Hcs']; subst.
    destruct (perform_keeps_reading f c a w Hc Ha Hap)
      as (a1 & w1 & Hrun & Ha1 & Hap1).
    rewrite Hrun. apply IH; assumption.
Qed.

(** X10.  Once [file] has handed out a handle, the file is opened once:
    the next call hands out the same handle with a nil error and touches
    neither the block nor the world, and so does every call of [file] that
    comes after any calls of [Write], [Find], [GetIterator] and [file] and
    any changes of the world, as long as [Clear] is not among them. *)
Theorem file_reuses_handle (a : AppendBlock) (w : World) (f : File)
    (a1 : AppendBlock) (w1 : World) :
  file a w = (Some f, None, a1, w1) ->
  (forall w2, file a1 w2 = (Some f, None, a1, w2))
  /\ forall ap,
       appender a1 = Some ap ->
       forall (cs : list call) (w2 : World),
         without_Clear cs ->
         exists a2 w3,
           perform_all cs a1 w2 = Returns (a2, w3)
           /\ forall w4, file a2 w4 = (Some f, None, a2, w4).
Proof.
  intro Hfile. pose proof (file_opened _ _ _ _ _ Hfile) as Hreading.
  split.
  - intro w2. apply file_reading. exact Hreading.
  - intros ap Hap cs w2 Hcs.
    destruct (perform_all_keeps_reading f cs a1 w2 Hcs Hreading)
      as (a2 & w3 & Hrun & Hreading2); [exists ap; exact Hap|].
    exists a2, w3. split; [exact Hrun|].
    intro w4. apply file_reading. exact Hreading2.
Qed.

(** X11.  [Clear] does not re-arm the guard: on a block whose guard has
    fired, after [Clear] every call of [file] returns a nil handle and a
    nil error, and the file is not opened again. *)
Theorem Clear_then_file (a : AppendBlock) (w : World) (err : option error)
    (a' : AppendBlock) (w' : World) :
  once a = true ->
  Clear a w = Returns (err, a', w') ->
  forall w2, file a' w2 = (None, None, a', w2).
Proof.
  intros Honce HClear w2. apply file_spent.
  revert HClear. unfold Clear.
  destruct a as [m v af apo fp rf o]; cbn in Honce; subst o.
  destruct rf as [rf|], af as [af|]; cbn;
    (destruct apo as [ap|]; [|discriminate]);
    match goal with
    | |- context [Complete ap ?w0] =>
        destruct (Complete ap w0) as [[cerr ap'] w1]
    end; cbn; unfold fullFilename; cbn;
    match goal with
    | |- context [os_Remove ?n ?w0] => destruct (os_Remove n w0) as [rerr w3]
    end; intro H; injection H as <- <- <-; split; reflexivity.
Qed.

(** X12.  [GetIterator] and the write handle: either closing the write
    handle failed, and then that error is returned and the block is as it
    was (the write handle still set, the read file not asked for), or the
    block comes back with a nil write handle and the same meta and
    appender. *)
Theorem GetIterator_write_handle (a : AppendBlock)
    (combiner : ObjectCombiner) (w : World) (res : result Iterator)
    (a' : AppendBlock) (w' : World) :
  GetIterator a combiner w = Returns (res, a', w') ->
  (exists f err,
     appendFile a = Some f /\ File_Close f w = (Some err, w')
     /\ res = Fail err /\ a' = a)
  \/ (appendFile a' = None /\ meta a' = meta a /\ appender a' = appender a).
Proof.
  unfold GetIterator.
  destruct a as [m v af apo fp rf o]; cbn.
  destruct af as [f|]; cbn.
  - destruct (File_Close f w) as [[err|] w1] eqn:Hclose; cbn.
    + intro H. injection H as <- <- <-. left. exists f, err.
      repeat split; assumption.
    + destruct apo as [ap|]; [|discriminate]. unfold file; cbn.
      destruct o; cbn.
      * destruct (NewDataReader v rf (meta_Encoding m) w1);
          intro H; injection H as <- <- <-; right; repeat split.
      * destruct rf as [rf|]; cbn.
        -- destruct (NewDataReader v (Some rf) (meta_Encoding m) w1);
             intro H; injection H as <- <- <-; right; repeat split.
        -- unfold fullFilename; cbn.
           destruct (os_OpenFile _ O_RDONLY perm_0644 w1) as [[rf|e] w2];
             cbn; [destruct (NewDataReader v (Some rf) (meta_Encoding m) w2)|];
             intro H; injection H as <- <- <-; right; repeat split.
  - destruct apo as [ap|]; [|discriminate]. unfold file; cbn.
    destruct o; cbn.
    + destruct (NewDataReader v rf (meta_Encoding m) w);
        intro H; injection H as <- <- <-; right; repeat split.
    + destruct rf as [rf|]; cbn.
      * destruct (NewDataReader v (Some rf) (meta_Encoding m) w);
          intro H; injection H as <- <- <-; right; repeat split.
      * unfold fullFilename; cbn.
        destruct (os_OpenFile _ O_RDONLY perm_0644 w) as [[rf|e] w2];
          cbn; [destruct (NewDataReader v (Some rf) (meta_Encoding m) w2)|];
          intro H; injection H as <- <- <-; right; repeat split.
Qed.

(** X13.  A second [Clear] closes nothing: after a [Clear], [Clear] only
    completes the appender again and removes the file again, and what it
    returns is what [os.Remove] returns. *)
Theorem Clear_twice (a : AppendBlock) (w : World) (err : option error)
    (a1 : AppendBlock) (w1 : World) :
  Clear a w = Returns (err, a1, w1) ->
  exists ap1,
    appender a1 = Some ap1
    /\ Clear a1 w1
       = Returns
           (fst (os_Remove (fullFilename a) (snd (Complete ap1 w1))),
            set_appender a1 (Some (snd (fst (Complete ap1 w1)))),
            snd (os_Remove (fullFilename a) (snd (Complete ap1 w1)))).
Proof.
  unfold Clear. destruct a as [m v af apo fp rf o].
  destruct rf as [rf|], af as [af|]; cbn;
    (destruct apo as [ap|]; [|discriminate]);
    match goal with
    | |- context [Complete ap ?w0] =>
        destruct (Complete ap w0) as [[cerr ap'] w2]
    end; cbn; unfold fullFilename; cbn;
    match goal with
    | |- context [os_Remove ?n ?w0] => destruct (os_Remove n w0) as [rerr w3]
    end; intro H; injection H as <- <- <-; exists ap'; cbn;
    (split; [reflexivity|]);
    destruct (Complete ap' w3) as [[cerr2 ap2] w4]; cbn;
    destruct (os_Remove (filepath_Join fp (filename m)) w4) as [rerr2 w5];
    reflexivity.
Qed.

End Handles.

(** ** Reading a replayed block *)

Section ReplayThenRead.
Context {BE : Backend} {O : OS} {C : Codec}.

(** X4.  A replay that returns a block returns no fatal error; the block
    cannot be appended to through a file (its write handle is nil), its
    read handle is open and its guard has fired, and its object count is
    the length of its appender.  Until [Clear] is called, [file] hands out
    the handle the replay opened without opening the file again: at once,
    and after any calls of [Write], [Find], [GetIterator] and [file] and
    any changes of the world. *)
Theorem replay_block_is_read_only (name path : string) (w : World)
    (b : AppendBlock) (warning fatal : option error) (w' : World) :
  newAppendBlockFromFile name path w = (Some b, warning, fatal, w') ->
  fatal = None
  /\ appendFile b = None
  /\ once b = true
  /\ (exists f ap,
        readFile b = Some f /\ appender b = Some ap
        /\ TotalObjects (meta b) = Appender_Length ap
        /\ (forall w2, file b w2 = (Some f, None, b, w2))
        /\ forall (cs : list call) (w2 : World),
             without_Clear cs ->
             exists a2 w3,
               perform_all cs b w2 = Returns (a2, w3)
               /\ forall w4, file a2 w4 = (Some f, None, a2, w4)).
Proof.
  intro H.
  destruct (newAppendBlockFromFile_inv _ _ _ _ _ _ _ H)
    as (blockID & tenantID & version & e & de & f & dr
        & _ & _ & _ & _ & Hfatal & _ & Hb).
  assert (Hreading : reading f b) by (rewrite Hb; split; reflexivity).
  assert (Hap : exists ap, appender b = Some ap)
    by (rewrite Hb; eexists; reflexivity).
  split; [exact Hfatal|]. split; [rewrite Hb; reflexivity|].
  split; [exact (proj1 Hreading)|].
  destruct Hap as [ap Hap]. exists f, ap.
  split; [exact (proj2 Hreading)|]. split; [exact Hap|].
  split.
  { rewrite Hb in Hap |- *. cbn in Hap |- *. injection Hap as <-.
    reflexivity. }
  split.
  - intro w2. apply file_reading. exact Hreading.
  - intros cs w2 Hcs.
    destruct (perform_all_keeps_reading f cs b w2 Hcs Hreading)
      as (a2 & w3 & Hrun & Hreading2); [exists ap; exact Hap|].
    exists a2, w3. split; [exact Hrun|].
    intro w4. apply file_reading. exact Hreading2.
Qed.

End ReplayThenRead.

(** X4, a witness: the replay of the whole example file, then a search
    and an iteration. *)
Lemma replay_block_is_read_only_witness :
  @None error = None
  /\ appendFile Examples.replayed_block = None
  /\ once Examples.replayed_block = true
  /\ (exists f ap,
        readFile Examples.replayed_block = Some f
        /\ appender Examples.replayed_block = Some ap
        /\ TotalObjects (meta Examples.replayed_block) = Appender_Length ap
        /\ (forall w2,
              file Examples.replayed_block w2
              = (Some f, None, Examples.replayed_block, w2))
        /\ forall (cs : list call) (w2 : World),
             without_Clear cs ->
             exists a2 w3,
               perform_all cs Examples.replayed_block w2 = Returns (a2, w3)
               /\ forall w4, file a2 w4 = (Some f, None, a2, w4)).
Proof.
  apply (replay_block_is_read_only (C := Sample.codec)
           Examples.name_extended "wal"
           (Examples.world_with Examples.file_whole)
           Examples.replayed_block None None Examples.replayed_world).
  reflexivity.
Defined.

(** X10, a witness: the fresh example block, read for the first time,
    then searched, iterated and written to. *)
Lemma file_reuses_handle_witness :
  file Examples.read_block Examples.read_world
  = (Some Examples.path_extended, None, Examples.read_block,
     Examples.read_world)
  /\ exists a2 w3,
       perform_all
         [call_Find [x09] Examples.concat_combiner;
          call_GetIterator Examples.concat_combiner;
          call_file; call_Write [x01] [x02]]
         Examples.read_block Examples.read_world
       = Returns (a2, w3)
       /\ file a2 w3 = (Some Examples.path_extended, None, a2, w3).
Proof.
  destruct (file_reuses_handle Examples.fresh_block Examples.fresh_world
              Examples.path_extended Examples.read_block Examples.read_world
              eq_refl) as [Hnext Hlater].
  split; [apply Hnext|].
  destruct (Hlater (Sample.appender Examples.path_extended [] 0) eq_refl
              [call_Find [x09] Examples.concat_combiner;
               call_GetIterator Examples.concat_combiner;
               call_file; call_Write [x01] [x02]]
              Examples.read_world)
    as (a2 & w3 & Hrun & Hfile).
  - repeat constructor.
  - exists a2, w3. split; [exact Hrun | apply Hfile].
Defined.

(** X11, a witness: the example block that has been read, then cleared. *)
Lemma Clear_then_file_witness :
  file Examples.cleared_read_block Examples.read_world
  = (None, None, Examples.cleared_read_block, Examples.read_world).
Proof.
  apply (Clear_then_file Examples.read_block Examples.read_world None
           Examples.cleared_read_block
           (Sample.mkWorld [] 2 false false false)).
  - reflexivity.
  - reflexivity.
Defined.

(** X12, a witness: on the failing disk the close fails and the block is
    as it was. *)
Lemma GetIterator_write_handle_witness :
  (exists f err,
     appendFile Examples.fresh_block = Some f
     /\ File_Close f Examples.failing_world
        = (Some err, Examples.failing_world)
     /\ Fail (Errorf ("close " ++ Examples.path_extended
                        ++ ": input/output error"))
        = Fail (A := @Iterator _ _ Sample.codec) err
     /\ Examples.fresh_block = Examples.fresh_block)
  \/ (appendFile Examples.fresh_block = None
      /\ meta Examples.fresh_block = meta Examples.fresh_block
      /\ appender Examples.fresh_block = appender Examples.fresh_block).
Proof.
  apply (GetIterator_write_handle Examples.fresh_block
           Examples.concat_combiner Examples.failing_world
           (Fail (Errorf ("close " ++ Examples.path_extended
                            ++ ": input/output error")))
           Examples.fresh_block Examples.failing_world).
  reflexivity.
Defined.

(** X13, a witness: the fresh example block, cleared twice. *)
Lemma Clear_twice_witness :
  exists ap1,
    appender Examples.cleared_block = Some ap1
    /\ Clear Examples.cleared_block Examples.cleared_world
       = Returns
           (fst (os_Remove (fullFilename Examples.fresh_block)
                   (snd (Complete ap1 Examples.cleared_world))),
            set_appender Examples.cleared_block
              (Some (snd (fst (Complete ap1 Examples.cleared_world)))),
            snd (os_Remove (fullFilename Examples.fresh_block)
                   (snd (Complete ap1 Examples.cleared_world)))).
Proof.
  apply (Clear_twice Examples.fresh_block Examples.fresh_world None
           Examples.cleared_block Examples.cleared_world).
  reflexivity.
Defined.

(** ** [newAppendBlock] *)

Section CreateMore.
Context {BE : Backend} {O : OS} {C : Codec}.

(** The block a successful [newAppendBlock] returns, read off its construction. *)
Lemma newAppendBlock_inv (id : UUID) (tenantID path : string)
    (e : Encoding) (dataEncoding : string) (w : World) (h : AppendBlock)
    (w' : World) :
  newAppendBlock id tenantID path e dataEncoding w = (Ok h, w') ->
  strings_ContainsRune dataEncoding colon = false
  /\ utf8.RuneCountInString dataEncoding <= maxDataEncodingLength
  /\ FromVersion "v2" = Ok (encoding h)
  /\ meta h
     = NewBlockMeta tenantID id (encoding_Version (encoding h)) e dataEncoding
  /\ filepath h = path
  /\ readFile h = None /\ once h = false
  /\ exists f dataWriter,
       os_OpenFile (fullFilename h) create_flags perm_0644 w = (Ok f, w')
       /\ NewDataWriter (encoding h) f e = Ok dataWriter
       /\ appendFile h = Some f
       /\ appender h = Some (NewAppender dataWriter).
Proof.
  unfold newAppendBlock.
  destruct (dataEncodingInvalid dataEncoding) eqn:Hvalid; [discriminate|].
  apply dataEncodingInvalid_false_iff in Hvalid as [Hcolon Hlen].
  destruct (FromVersion "v2") as [v|err]; [|discriminate].
  unfold fullFilename; cbn.
  destruct (os_OpenFile _ _ perm_0644 w) as [[f|err] w1] eqn:Hopen;
    [|discriminate].
  cbn. destruct (NewDataWriter v f e) as [dw|err] eqn:Hdw; [|discriminate].
  intro H. injection H as <- <-. cbn.
  repeat split; try assumption. exists f, dw. repeat split; assumption.
Qed.

(** X14.  A block [newAppendBlock] returns: its data-encoding passed the
    check, its codec is the one [FromVersion] gives for ["v2"] whatever
    the caller runs, its file was opened for appending under the name
    built from its meta, its write handle and appender are set, its read
    handle is nil with the guard not fired, and it counts no objects. *)
Theorem newAppendBlock_returns (id : UUID) (tenantID path : string)
    (e : Encoding) (dataEncoding : string) (w : World) (h : AppendBlock)
    (w' : World) :
  newAppendBlock id tenantID path e dataEncoding w = (Ok h, w') ->
  strings_ContainsRune dataEncoding colon = false
  /\ utf8.RuneCountInString dataEncoding <= maxDataEncodingLength
  /\ FromVersion "v2" = Ok (encoding h)
  /\ meta h
     = NewBlockMeta tenantID id (encoding_Version (encoding h)) e dataEncoding
  /\ filepath h = path
  /\ readFile h = None /\ once h = false
  /\ exists f dataWriter,
       os_OpenFile (fullFilename h) create_flags perm_0644 w = (Ok f, w')
       /\ NewDataWriter (encoding h) f e = Ok dataWriter
       /\ appendFile h = Some f
       /\ appender h = Some (NewAppender dataWriter).
Proof. exact (newAppendBlock_inv id tenantID path e dataEncoding w h w'). Qed.

(** X15.  The ways [newAppendBlock] fails: the data-encoding is invalid
    or ["v2"] is not a known version, and then the world is untouched; or
    the file does not open; or the data writer cannot be made, and then
    the file has already been created and is left open. *)
Theorem newAppendBlock_fails (id : UUID) (tenantID path : string)
    (e : Encoding) (dataEncoding : string) (w : World) (err : error)
    (w' : World) :
  newAppendBlock id tenantID path e dataEncoding w = (Fail err, w') ->
  (dataEncodingInvalid dataEncoding = true /\ w' = w
   /\ err = Errorf ("dataEncoding " ++ dataEncoding ++ " is invalid"))
  \/ (FromVersion "v2" = Fail err /\ w' = w)
  \/ exists v,
       FromVersion "v2" = Ok v
       /\ let name :=
            filepath_Join path
              (filename
                 (NewBlockMeta tenantID id (encoding_Version v) e
                    dataEncoding)) in
          os_OpenFile name create_flags perm_0644 w = (Fail err, w')
          \/ exists f,
               os_OpenFile name create_flags perm_0644 w = (Ok f, w')
               /\ NewDataWriter v f e = Fail err.
Proof.
  unfold newAppendBlock.
  destruct (dataEncodingInvalid dataEncoding) eqn:Hvalid.
  { intro H. injection H as <- <-. left. repeat split. }
  destruct (FromVersion "v2") as [v|err0].
  2: { intro H. injection H as <- <-. right. left. split; reflexivity. }
  unfold fullFilename; cbn.
  destruct (os_OpenFile _ _ perm_0644 w) as [[f|err0] w1] eqn:Hopen.
  2: { intro H. injection H as <- <-. right. right. exists v.
       split; [reflexivity|]. left. exact Hopen. }
  cbn. destruct (NewDataWriter v f e) as [dw|err0] eqn:Hdw; [discriminate|].
  intro H. injection H as <- <-. right. right. exists v.
  split; [reflexivity|]. right. exists f. split; assumption.
Qed.

End CreateMore.

Section CreateThenParse.
Context {BE : Backend}.

(** The name built from a meta parses back to its fields. *)
Lemma filename_parses_back (m : BlockMeta) :
  valid_UUID (BlockID m) ->
  TenantID m <> EmptyString ->
  Version m <> EmptyString ->
  recognized_encoding (meta_Encoding m) ->
  strings_ContainsRune (DataEncoding m) colon = false ->
  strings_ContainsRune (TenantID m) colon = false ->
  strings_ContainsRune (Version m) colon = false ->
  legacy_defaults m ->
  parseFilename (filename m)
  = Ok (BlockID m, TenantID m, Version m, meta_Encoding m, DataEncoding m).
Proof.
  intros [Hparse Hu] Ht Hv [Henc He] Hd Htc Hvc Hleg.
  apply is_empty_false_iff in Ht. apply is_empty_false_iff in Hv.
  pose proof (filename_segments m Hu Htc Hvc He Hd) as Hsplit.
  unfold parseFilename. rewrite Hsplit. clear Hsplit.
  destruct (String.eqb (Version m) "v0") eqn:Hv0.
  - apply String.eqb_eq in Hv0. destruct (Hleg Hv0) as [HeN HdE].
    cbn. rewrite Hparse, <- HeN, Henc, Ht. cbn.
    rewrite Hv0, HdE. reflexivity.
  - destruct (is_empty (DataEncoding m)) eqn:Hde.
    + cbn. rewrite Hparse, Henc, Ht, Hv. cbn.
      destruct (DataEncoding m); [reflexivity | discriminate].
    + cbn. rewrite Hparse, Henc, Ht, Hv. cbn. reflexivity.
Qed.

End CreateThenParse.

Section CreateThenParseBlock.
Context {BE : Backend} {O : OS} {C : Codec}.

(** X16.  A block that was created can be found again: for a valid block
    id, a tenant id that is not empty and has no [:], a recognized
    encoding, and a codec whose version tag is not empty, is not ["v0"]
    and has no [:], the name of the file [newAppendBlock] opened parses to
    the block's id, tenant id, version, encoding and data-encoding.  The
    data-encoding needs no assumption: [newAppendBlock] checked it. *)
Theorem newAppendBlock_then_parseFilename (id : UUID)
    (tenantID path : string) (e : Encoding) (dataEncoding : string)
    (w : World) (h : AppendBlock) (w' : World) :
  newAppendBlock id tenantID path e dataEncoding w = (Ok h, w') ->
  valid_UUID id ->
  tenantID <> EmptyString ->
  strings_ContainsRune tenantID colon = false ->
  recognized_encoding e ->
  encoding_Version (encoding h) <> EmptyString ->
  encoding_Version (encoding h) <> "v0" ->
  strings_ContainsRune (encoding_Version (encoding h)) colon = false ->
  fullFilename h = filepath_Join path (filename (meta h))
  /\ parseFilename (filename (meta h))
     = Ok (id, tenantID, encoding_Version (encoding h), e, dataEncoding).
Proof.
  intros Hnew Hid Ht Htc He Hv Hv0 Hvc.
  destruct (newAppendBlock_inv _ _ _ _ _ _ _ _ Hnew)
    as (Hdc & _ & _ & Hmeta & Hpath & _).
  split; [unfold fullFilename; rewrite Hpath; reflexivity|].
  rewrite Hmeta.
  apply (filename_parses_back
           (NewBlockMeta tenantID id (encoding_Version (encoding h)) e
              dataEncoding)); cbn; try assumption.
  intro Hlegacy. cbn in Hlegacy. contradiction.
Qed.

End CreateThenParseBlock.

(** X14, a witness: the fresh example block. *)
Lemma newAppendBlock_returns_witness :
  strings_ContainsRune "v1" colon = false
  /\ utf8.RuneCountInString "v1" <= maxDataEncodingLength
  /\ FromVersion "v2" = Ok (encoding Examples.fresh_block)
  /\ meta Examples.fresh_block
     = NewBlockMeta "tenant" Examples.id1
         (encoding_Version (encoding Examples.fresh_block)) Sample.EncSnappy
         "v1"
  /\ filepath Examples.fresh_block = "wal"
  /\ readFile Examples.fresh_block = None
  /\ once Examples.fresh_block = false
  /\ exists f dataWriter,
       os_OpenFile (fullFilename Examples.fresh_block) create_flags perm_0644
         Examples.empty_world = (Ok f, Examples.fresh_world)
       /\ NewDataWriter (encoding Examples.fresh_block) f Sample.EncSnappy
          = Ok dataWriter
       /\ appendFile Examples.fresh_block = Some f
       /\ appender Examples.fresh_block = Some (NewAppender dataWriter).
Proof.
  apply (newAppendBlock_returns (C := Sample.codec) Examples.id1 "tenant"
           "wal" Sample.EncSnappy "v1" Examples.empty_world
           Examples.fresh_block Examples.fresh_world).
  reflexivity.
Defined.

(** X15, a witness: a data-encoding with a [:]. *)
Lemma newAppendBlock_fails_witness :
  (dataEncodingInvalid "a:b" = true
   /\ Examples.empty_world = Examples.empty_world
   /\ Errorf "dataEncoding a:b is invalid"
      = Errorf ("dataEncoding " ++ "a:b" ++ " is invalid"))
  \/ (FromVersion (Codec := Sample.codec) "v2"
      = Fail (Errorf "dataEncoding a:b is invalid")
      /\ Examples.empty_world = Examples.empty_world)
  \/ exists v,
       FromVersion (Codec := Sample.codec) "v2" = Ok v
       /\ let name :=
            filepath_Join "wal"
              (filename
                 (NewBlockMeta "tenant" Examples.id1 (encoding_Version v)
                    Sample.EncSnappy "a:b")) in
          os_OpenFile name create_flags perm_0644 Examples.empty_world
          = (Fail (Errorf "dataEncoding a:b is invalid"),
             Examples.empty_world)
          \/ exists f,
               os_OpenFile name create_flags perm_0644 Examples.empty_world
               = (Ok f, Examples.empty_world)
               /\ NewDataWriter v f Sample.EncSnappy
                  = Fail (Errorf "dataEncoding a:b is invalid").
Proof.
  apply (newAppendBlock_fails (C := Sample.codec) Examples.id1 "tenant"
           "wal" Sample.EncSnappy "a:b" Examples.empty_world
           (Errorf "dataEncoding a:b is invalid") Examples.empty_world).
  reflexivity.
Defined.

(** X16, a witness: the fresh example block. *)
Lemma newAppendBlock_then_parseFilename_witness :
  fullFilename Examples.fresh_block
  = filepath_Join "wal" (filename (meta Examples.fresh_block))
  /\ parseFilename (filename (meta Examples.fresh_block))
     = Ok (Examples.id1, "tenant",
           encoding_Version (encoding Examples.fresh_block),
           Sample.EncSnappy, "v1").
Proof.
  apply (newAppendBlock_then_parseFilename (C := Sample.codec) Examples.id1
           "tenant" "wal" Sample.EncSnappy "v1" Examples.empty_world
           Examples.fresh_block Examples.fresh_world).
  - reflexivity.
  - split; reflexivity.
  - discriminate.
  - reflexivity.
  - split; reflexivity.
  - discriminate.
  - discriminate.
  - reflexivity.
Defined.

(** ** The length check of the data-encoding *)

Lemma utf8_advance_le_4 (c : Z) (rest : string) :
  (utf8.advance c rest <= 4)%nat.
Proof.
  unfold utf8.advance.
  repeat match goal with
         | |- context [if ?b then _ else _] =>
             lazymatch b with
             | context [if _ then _ else _] => fail
             | context [match _ with _ => _ end] => fail
             | _ => destruct b
             end
         | |- context [let '(_, _) := ?p in _] => destruct p
         end; lia.
Qed.

Lemma utf8_count_from_le (s : string) :
  forall skip, utf8.count_from s skip <= Z.of_nat (String.length s).
Proof.
  induction s as [|c s IH]; intros [|k]; cbn [utf8.count_from String.length];
    try lia.
  - specialize (IH (Nat.pred (utf8.advance (byte_val c) s))). lia.
  - specialize (IH k). lia.
Qed.

Lemma utf8_count_from_ge (s : string) :
  forall skip,
    (skip <= 3)%nat ->
    Z.of_nat (String.length s) <= 4 * utf8.count_from s skip + Z.of_nat skip.
Proof.
  induction s as [|c s IH]; intros [|k] Hk;
    cbn [utf8.count_from String.length]; try lia.
  - pose proof (utf8_advance_le_4 (byte_val c) s) as Hadv.
    specialize (IH (Nat.pred (utf8.advance (byte_val c) s))). lia.
  - specialize (IH k). lia.
Qed.

(** X17.  The check of [newAppendBlock] counts runes, and a rune is
    between one and four bytes: a data-encoding without [:] of at most 32
    bytes always passes, and one of more than 128 bytes never does. *)
Theorem dataEncoding_byte_bounds (dataEncoding : string) :
  (strings_ContainsRune dataEncoding colon = false ->
   (String.length dataEncoding <= 32)%nat ->
   dataEncodingInvalid dataEncoding = false)
  /\ ((128 < String.length dataEncoding)%nat ->
      dataEncodingInvalid dataEncoding = true).
Proof.
  pose proof (utf8_count_from_le dataEncoding 0) as Hle.
  pose proof (utf8_count_from_ge dataEncoding 0 ltac:(lia)) as Hge.
  fold (utf8.RuneCountInString dataEncoding) in Hle, Hge.
  split.
  - intros Hcolon Hlen. apply dataEncodingInvalid_false_iff.
    split; [exact Hcolon|]. unfold maxDataEncodingLength. lia.
  - intro Hlen. unfold dataEncodingInvalid. apply orb_true_iff. right.
    apply Z.gtb_lt. unfold maxDataEncodingLength. lia.
Qed.

(** X17, a witness: a short tag, and 129 letters. *)
Lemma dataEncoding_byte_bounds_witness :
  dataEncodingInvalid "v1" = false
  /\ dataEncodingInvalid (Examples.repeat_string "a" 129) = true.
Proof.
  split.
  - apply (proj1 (dataEncoding_byte_bounds "v1")); [reflexivity | cbn; lia].
  - apply (proj2 (dataEncoding_byte_bounds (Examples.repeat_string "a" 129))).
    cbn. lia.
Defined.

(** ** Ring broadcasts *)

Lemma found_In (oldName : string) (names : list string) :
  memberlist.found oldName names = true <-> In oldName names.
Proof.
  induction names as [|n names IH]; cbn; [split; [discriminate|contradiction]|].
  destruct (String.eqb oldName n) eqn:Heq.
  - apply String.eqb_eq in Heq. subst. split; auto.
  - apply String.eqb_neq in Heq. rewrite IH. split; [auto|].
    intros [H|H]; [congruence | exact H].
Qed.

Lemma all_found_incl (oldNames newNames : list string) :
  memberlist.all_found oldNames newNames = true <-> incl oldNames newNames.
Proof.
  induction oldNames as [|o oldNames IH]; cbn.
  - split; [intros _ x Hx; contradiction | reflexivity].
  - destruct (memberlist.found o newNames) eqn:Hf; cbn.
    + apply found_In in Hf. rewrite IH. split.
      * intros H x [<-|Hx]; auto.
      * intros H x Hx. apply H. right. exact Hx.
    + split; [discriminate|]. intro H.
      assert (Hin : In o newNames) by (apply H; left; reflexivity).
      apply found_In in Hin. congruence.
Qed.

(** [Invalidates] in terms of inclusion and order. *)
Lemma Invalidates_spec (r oldb : memberlist.ringBroadcast) :
  (memberlist.Invalidates r (memberlist.ring oldb) = true
   <-> memberlist.key r = memberlist.key oldb
       /\ incl (memberlist.content oldb) (memberlist.content r)
       /\ (memberlist.version oldb <= memberlist.version r)%N)
  /\ memberlist.Invalidates r memberlist.other = false.
Proof.
  split; [|reflexivity]. unfold memberlist.Invalidates.
  destruct (String.eqb (memberlist.key r) (memberlist.key oldb)) eqn:Hk; cbn.
  - apply String.eqb_eq in Hk.
    destruct (memberlist.all_found (memberlist.content oldb)
                (memberlist.content r)) eqn:Hc; cbn.
    + apply all_found_incl in Hc.
      destruct (N.leb_spec (memberlist.version oldb) (memberlist.version r)).
      * split; auto.
      * split; [discriminate|]. intros (_ & _ & H'). lia.
    + split; [discriminate|]. intros (_ & H' & _).
      apply all_found_incl in H'. congruence.
  - apply String.eqb_neq in Hk. split; [discriminate|].
    intros (H' & _). contradiction.
Qed.

(** X18.  A ring broadcast invalidates an old broadcast exactly when the
    old one is a ring broadcast for the same key, every name in the old
    content is in the new content, and the new version is not lower; it
    never invalidates a broadcast of another kind. *)
Theorem Invalidates_iff (r oldb : memberlist.ringBroadcast) :
  (memberlist.Invalidates r (memberlist.ring oldb) = true
   <-> memberlist.key r = memberlist.key oldb
       /\ incl (memberlist.content oldb) (memberlist.content r)
       /\ (memberlist.version oldb <= memberlist.version r)%N)
  /\ memberlist.Invalidates r memberlist.other = false.
Proof. exact (Invalidates_spec r oldb). Qed.

(** X19.  Every ring broadcast invalidates itself. *)
Theorem Invalidates_refl (r : memberlist.ringBroadcast) :
  memberlist.Invalidates r (memberlist.ring r) = true.
Proof.
  apply (proj1 (Invalidates_spec r r)).
  split; [reflexivity|]. split; [apply incl_refl | lia].
Qed.

(** X20.  Invalidation carries over: a broadcast that invalidates a second
    one invalidates whatever the second one invalidates. *)
Theorem Invalidates_trans (r o p : memberlist.ringBroadcast) :
  memberlist.Invalidates r (memberlist.ring o) = true ->
  memberlist.Invalidates o (memberlist.ring p) = true ->
  memberlist.Invalidates r (memberlist.ring p) = true.
Proof.
  intros H1 H2.
  apply (proj1 (Invalidates_spec r o)) in H1 as (Hk1 & Hc1 & Hv1).
  apply (proj1 (Invalidates_spec o p)) in H2 as (Hk2 & Hc2 & Hv2).
  apply (proj1 (Invalidates_spec r p)).
  split; [congruence|]. split; [eapply incl_tran; eassumption | lia].
Qed.

(** X21.  An update that does not cover every name of an old broadcast
    never invalidates it, however new its version. *)
Theorem Invalidates_needs_cover (r oldb : memberlist.ringBroadcast)
    (name : string) :
  In name (memberlist.content oldb) ->
  ~ In name (memberlist.content r) ->
  memberlist.Invalidates r (memberlist.ring oldb) = false.
Proof.
  intros Hold Hnew.
  destruct (memberlist.Invalidates r (memberlist.ring oldb)) eqn:H;
    [|reflexivity].
  apply (proj1 (Invalidates_spec r oldb)) in H as (_ & Hc & _).
  exfalso. apply Hnew. apply Hc. exact Hold.
Qed.

(** X20, a witness: version 7 for both ingesters invalidates version 5 for
    one of them, which invalidates itself. *)
Lemma Invalidates_trans_witness :
  memberlist.Invalidates Examples.update_both_7
    (memberlist.ring Examples.update_one_5) = true.
Proof.
  apply (Invalidates_trans Examples.update_both_7 Examples.update_one_5
           Examples.update_one_5); reflexivity.
Defined.

(** X21, a witness: version 5 for one ingester does not invalidate version
    3 for both. *)
Lemma Invalidates_needs_cover_witness :
  memberlist.Invalidates Examples.update_one_5
    (memberlist.ring Examples.update_both_3) = false.
Proof.
  apply (Invalidates_needs_cover Examples.update_one_5
           Examples.update_both_3 "ingester-2").
  - right. left. reflexivity.
  - intros [H|[]]. discriminate H.
Defined.

(** ** Replay: names that are turned away *)

Section ReplayRejects.
Context {BE : Backend} {O : OS} {C : Codec}.

(** X22.  A file whose name does not parse, or names a version no codec
    is known for, is turned away before anything is opened: the replay
    returns that error as the fatal error, no block and no warning, and
    the world is as it was. *)
Theorem replay_rejects_before_open (name path : string) (w : World)
    (err : error) :
  (parseFilename name = Fail err
   \/ exists blockID tenantID version e dataEncoding,
        parseFilename name
        = Ok (blockID, tenantID, version, e, dataEncoding)
        /\ FromVersion version = Fail err) ->
  newAppendBlockFromFile name path w = (None, None, Some err, w).
Proof.
  unfold newAppendBlockFromFile.
  intros [Hparse|(blockID & tenantID & version & e & de & Hparse & Hv)];
    rewrite Hparse; [reflexivity|]. rewrite Hv. reflexivity.
Qed.

End ReplayRejects.

(** X22, a witness: a stray file in the WAL directory. *)
Lemma replay_rejects_before_open_witness :
  newAppendBlockFromFile "lost+found" "wal" Examples.empty_world
  = (None, None,
     Some (Errorf
             "unable to parse lost+found. unexpected number of segments"),
     Examples.empty_world).
Proof.
  apply (replay_rejects_before_open (C := Sample.codec) "lost+found" "wal"
           Examples.empty_world).
  left. reflexivity.
Defined.
